(** * AppSec CVE Enricher (src/app.jsx): a shallow embedding

    The page collects CVE identifiers (free text or a CSV upload), posts them
    to an enrichment endpoint and shows the returned rows after a
    normalization pass.  The file src/app.jsx holds two builds of the page,
    one after the other; they are embedded as the modules [Earlier] (lines
    1-422) and [Later] (lines 423-807).

    Conventions of the embedding:
    - a JavaScript string is a [string]; each character stands for one UTF-16
      code unit in the range 0..255;
    - JavaScript values are [value]s; objects and arrays live in a [heap] and
      are referred to by location, so that sharing and in-place mutation can
      be expressed;
    - the event handlers are written in a small state-and-exception monad [M]
      over the [world] (component state, heap, and the observable effects:
      alerts, console, requests). *)

From Stdlib Require Import Floats.PrimFloat Floats.FloatAxioms Floats.SpecFloat
  Floats.FloatOps Strings.Ascii.
From stdpp Require Import base strings gmap list pretty.

(* ===================================================================== *)
(** * Strings: [trim] and [split] *)
(* ===================================================================== *)

Module Str.

(** White space and line terminators removed by [String.prototype.trim],
    restricted to code units below 256: TAB, LF, VT, FF, CR, SP, NBSP. *)
Definition is_white_space (c : ascii) : bool :=
  match c with
  | "009" | "010" | "011" | "012" | "013" | " " | "160" => true
  | _ => false
  end%char.

Fixpoint trimStart (s : string) : string :=
  match s with
  | String c s' => if is_white_space c then trimStart s' else s
  | EmptyString => EmptyString
  end.

Fixpoint trimEnd (s : string) : string :=
  match s with
  | EmptyString => EmptyString
  | String c s' =>
      match trimEnd s' with
      | EmptyString => if is_white_space c then EmptyString else String c EmptyString
      | t => String c t
      end
  end.

(** [s.trim()] *)
Definition trim (s : string) : string := trimEnd (trimStart s).

(** Puts character [c] in front of the first piece of a split. *)
Definition cons_first (c : ascii) (pieces : list string) : list string :=
  match pieces with
  | [] => [String c EmptyString]
  | p :: ps => String c p :: ps
  end.

(** [s.split(",")] *)
Fixpoint split_comma (s : string) : list string :=
  match s with
  | EmptyString => [EmptyString]
  | String c s' =>
      if Ascii.eqb c ","%char then EmptyString :: split_comma s'
      else cons_first c (split_comma s')
  end.

(** [s.split(/\r?\n/)]: the separator is a line feed, together with the
    carriage return right before it when there is one. *)
Fixpoint split_lines (s : string) : list string :=
  match s with
  | EmptyString => [EmptyString]
  | String c s' =>
      if Ascii.eqb c "010"%char then EmptyString :: split_lines s'
      else
        match s' with
        | String c' s'' =>
            if Ascii.eqb c "013"%char && Ascii.eqb c' "010"%char
            then EmptyString :: split_lines s''
            else cons_first c (split_lines s')
        | EmptyString => cons_first c (split_lines s')
        end
  end.

(** [Boolean(s)] for a string: non-empty. *)
Definition nonempty (s : string) : bool :=
  match s with EmptyString => false | String _ _ => true end.

(** [a || b] on strings. *)
Definition or_else (a b : string) : string := if nonempty a then a else b.

End Str.

(* ===================================================================== *)
(** * JavaScript values, heap, exceptions *)
(* ===================================================================== *)

(** Locations of heap cells. *)
Definition loc := nat.

Inductive value : Type :=
| VUndefined
| VNull
| VBool (b : bool)
| VNum (n : float)
| VStr (s : string)
| VRef (l : loc).

(** A heap cell is a plain object (its own properties) or an array. *)
Inductive cell : Type :=
| Object (props : gmap string value)
| Array (elems : list value).

(** The heap: cell [l] sits at index [l]; allocation appends. *)
Abbreviation heap := (list cell).

Definition alloc (c : cell) (h : heap) : value * heap :=
  (VRef (length h), h ++ [c]).

(** Exceptions: an [Error] object carrying its message (made by
    [new Error(msg)] or by the host: fetch, body decoding, file reading), or
    a [TypeError] raised by the language itself. *)
Inductive exn : Type :=
| Error (msg : string)
| TypeError.

Inductive result (A : Type) : Type :=
| Ok (a : A)
| Throw (e : exn).
Arguments Ok {A} a.
Arguments Throw {A} e.

Global Instance result_ret : MRet result := λ A a, Ok a.
Global Instance result_bind : MBind result := λ A B k r,
  match r with
  | Ok a => k a
  | Throw e => Throw e
  end.

(** [Boolean(v)] *)
Definition truthy (v : value) : bool :=
  match v with
  | VUndefined | VNull => false
  | VBool b => b
  | VNum n => negb (PrimFloat.eqb n 0%float || PrimFloat.is_nan n)
  | VStr s => Str.nonempty s
  | VRef _ => true
  end.

(** [a || b] where evaluating an operand may throw; the right operand is
    only consulted when the left one is falsy. *)
Definition or_else (a b : result value) : result value :=
  v ← a; if truthy v then Ok v else b.
Infix "|||" := or_else (at level 50, left associativity).

(** Own properties ["0"], ["1"], ... of an array or of a string. *)
Definition index_props (vs : list value) : gmap string value :=
  list_to_map (imap (λ (i : nat) v, (pretty i, v)) vs).

Fixpoint chars (s : string) : list value :=
  match s with
  | EmptyString => []
  | String c s' => VStr (String c EmptyString) :: chars s'
  end.

(** [{...v}]: the own enumerable properties copied by object spread. *)
Definition spread (h : heap) (v : value) : gmap string value :=
  match v with
  | VRef l =>
      match h !! l with
      | Some (Object props) => props
      | Some (Array elems) => index_props elems
      | None => ∅
      end
  | VStr s => index_props (chars s)
  | VUndefined | VNull | VBool _ | VNum _ => ∅
  end.

(** [v.k] for the field names this program reads ([rows], [CVE_ID],
    [AI_Brief], [Brief_Description], [Description_Short],
    [Remediation_Links], [Remediation_Steps], [Owner_Suggested]); none of
    them is an index, [length], or a property of a built-in prototype.
    Reading a property of [undefined] or [null] throws. *)
Definition get (h : heap) (v : value) (k : string) : result value :=
  match v with
  | VUndefined | VNull => Throw TypeError
  | VRef l =>
      match h !! l with
      | Some (Object props) => Ok (default VUndefined (props !! k))
      | _ => Ok VUndefined
      end
  | VBool _ | VNum _ | VStr _ => Ok VUndefined
  end.

(** [v?.k], for the same field names. *)
Definition opt_get (h : heap) (v : value) (k : string) : value :=
  match v with
  | VUndefined | VNull => VUndefined
  | _ => match get h v k with Ok x => x | Throw _ => VUndefined end
  end.

(** [v?.[0]] *)
Definition opt_index0 (h : heap) (v : value) : value :=
  match v with
  | VUndefined | VNull => VUndefined
  | VRef l =>
      match h !! l with
      | Some (Object props) => default VUndefined (props !! "0")
      | Some (Array elems) => default VUndefined (elems !! 0)
      | None => VUndefined
      end
  | VStr s => default VUndefined (chars s !! 0)
  | VBool _ | VNum _ => VUndefined
  end.

(** [Array.prototype.map] with a callback that may allocate and may throw. *)
Fixpoint array_map (f : value → heap → result (value * heap))
    (elems : list value) (h : heap) : result (list value * heap) :=
  match elems with
  | [] => Ok ([], h)
  | r :: elems' =>
      '(v, h1) ← f r h;
      '(vs, h2) ← array_map f elems' h1;
      Ok (v :: vs, h2)
  end.

(* ===================================================================== *)
(** * Decoded JSON *)
(* ===================================================================== *)

(** The tree a response body denotes; [res.json()] builds it in the heap. *)
#[local] Unset Elimination Schemes.
Inductive json : Type :=
| JNull
| JBool (b : bool)
| JNum (n : float)
| JStr (s : string)
| JArr (items : list json)
| JObj (members : list (string * json)).
#[local] Set Elimination Schemes.

(** Building the items of an array and the members of an object, given
    how one tree is built; a repeated member name keeps its last value, as
    [JSON.parse] does. *)
Fixpoint build_items (build : json → heap → value * heap)
    (items : list json) (h : heap) : list value * heap :=
  match items with
  | [] => ([], h)
  | j :: items' =>
      let '(v, h1) := build j h in
      let '(vs, h2) := build_items build items' h1 in
      (v :: vs, h2)
  end.

Fixpoint build_members (build : json → heap → value * heap)
    (members : list (string * json)) (props : gmap string value) (h : heap)
  : gmap string value * heap :=
  match members with
  | [] => (props, h)
  | (k, j) :: members' =>
      let '(v, h1) := build j h in
      build_members build members' (<[k := v]> props) h1
  end.

Fixpoint build (j : json) (h : heap) {struct j} : value * heap :=
  match j with
  | JNull => (VNull, h)
  | JBool b => (VBool b, h)
  | JNum n => (VNum n, h)
  | JStr s => (VStr s, h)
  | JArr items =>
      let '(vs, h1) := build_items build items h in
      alloc (Array vs) h1
  | JObj members =>
      let '(props, h1) := build_members build members ∅ h in
      alloc (Object props) h1
  end.

(* ===================================================================== *)
(** * The page: state, effects, and the handler monad *)
(* ===================================================================== *)

(** [fetch(url, { method: "POST", headers: { "Content-Type":
    "application/json" }, body: JSON.stringify({ cves }) })] *)
Record request : Type := {
  url : string;
  cves_sent : list string;
}.

(** An HTTP response as the handlers use it; [text] and [json_body] are what
    [res.text()] and [res.json()] settle to. *)
Record response : Type := {
  status : N;
  statusText : string;
  text : result string;
  json_body : result json;
}.

(** [res.ok]: the status is in the range 200-299. *)
Definition ok (res : response) : bool :=
  ((200 <=? status res) && (status res <=? 299))%N.

Inductive log_entry : Type :=
| LogError (e : exn)          (* console.error(e) *)
| Log (args : list value).    (* console.log(...args) *)

Record world : Type := {
  objects : heap;
  rows : value;                 (* state [rows]: the displayed result set *)
  loading : bool;               (* state [loading] *)
  alerts : list string;         (* messages shown by [alert], oldest first *)
  console : list log_entry;
  requests : list request;      (* calls of [fetch], oldest first *)
  file_input : option string;   (* [fileRef.current.value]; None: no element *)
}.

(** What the build and the engine fix: the configured endpoint
    ([import.meta.env.VITE_API_URL], [None] when undefined) and the text the
    engine puts in the [TypeError]s it raises. *)
Record host : Type := {
  API : option string;
  type_error_message : string;
}.

(** [e.message] *)
Definition message (hst : host) (e : exn) : string :=
  match e with
  | Error msg => msg
  | TypeError => type_error_message hst
  end.

Inductive outcome (A : Type) : Type :=
| Normal (a : A)
| Returned            (* a [return;] was executed *)
| Thrown (e : exn).
Arguments Normal {A} a.
Arguments Returned {A}.
Arguments Thrown {A} e.

Definition M (A : Type) : Type := world → outcome A * world.

Global Instance M_ret : MRet M := λ A a w, (Normal a, w).
Global Instance M_bind : MBind M := λ A B k m w,
  match m w with
  | (Normal a, w1) => k a w1
  | (Returned, w1) => (Returned, w1)
  | (Thrown e, w1) => (Thrown e, w1)
  end.

Definition throw {A} (e : exn) : M A := λ w, (Thrown e, w).
Definition return_ {A} : M A := λ w, (Returned, w).
Definition when (c : bool) (m : M unit) : M unit := if c then m else mret ().

(** An awaited promise: its value, or its rejection thrown. *)
Definition await {A} (r : result A) : M A := λ w,
  match r with
  | Ok a => (Normal a, w)
  | Throw e => (Thrown e, w)
  end.

(** A computation on the heap run inside the handler. *)
Definition on_heap {A} (f : heap → result (A * heap)) : M A := λ w,
  match f (objects w) with
  | Ok (a, h) =>
      (Normal a,
       {| objects := h; rows := rows w; loading := loading w;
          alerts := alerts w; console := console w; requests := requests w;
          file_input := file_input w |})
  | Throw e => (Thrown e, w)
  end.

Definition try_catch_finally (body : M unit) (handler : exn → M unit)
    (finalizer : M unit) : M unit := λ w,
  let '(o1, w1) :=
    match body w with
    | (Thrown e, w1) => handler e w1
    | r => r
    end in
  match finalizer w1 with
  | (Normal _, w2) => (o1, w2)
  | r => r
  end.

Definition setRows (v : value) : M unit := λ w,
  (Normal (),
   {| objects := objects w; rows := v; loading := loading w;
      alerts := alerts w; console := console w; requests := requests w;
      file_input := file_input w |}).

Definition setLoading (b : bool) : M unit := λ w,
  (Normal (),
   {| objects := objects w; rows := rows w; loading := b;
      alerts := alerts w; console := console w; requests := requests w;
      file_input := file_input w |}).

Definition alert (msg : string) : M unit := λ w,
  (Normal (),
   {| objects := objects w; rows := rows w; loading := loading w;
      alerts := alerts w ++ [msg]; console := console w;
      requests := requests w; file_input := file_input w |}).

Definition console_write (entry : log_entry) : M unit := λ w,
  (Normal (),
   {| objects := objects w; rows := rows w; loading := loading w;
      alerts := alerts w; console := console w ++ [entry];
      requests := requests w; file_input := file_input w |}).

(** [await fetch(url, ...)]: the request goes out, then the promise settles
    to [reply]. *)
Definition fetch (u : string) (cves : list string) (reply : result response)
  : M response := λ w,
  let w1 :=
    {| objects := objects w; rows := rows w; loading := loading w;
       alerts := alerts w; console := console w;
       requests := requests w ++ [{| url := u; cves_sent := cves |}];
       file_input := file_input w |} in
  match reply with
  | Ok res => (Normal res, w1)
  | Throw e => (Thrown e, w1)
  end.

(** [if (fileRef.current) fileRef.current.value = ""] *)
Definition reset_file_input : M unit := λ w,
  (Normal (),
   {| objects := objects w; rows := rows w; loading := loading w;
      alerts := alerts w; console := console w; requests := requests w;
      file_input := match file_input w with
                    | Some _ => Some ""
                    | None => None
                    end |}).

(** [!API] *)
Definition API_missing (hst : host) : bool :=
  match API hst with
  | Some base => negb (Str.nonempty base)
  | None => true
  end.

(** [`${API}/enrich`]; an undefined [API] prints as ["undefined"]. *)
Definition enrich_url (hst : host) : string :=
  default "undefined" (API hst) +:+ "/enrich".

(** [await res.json()], the decoded tree built in the heap. *)
Definition res_json (res : response) : M value :=
  j ← await (json_body res);
  on_heap (λ h, Ok (build j h)).

(** The failure raised for a response that is not ok:
    [const t = await res.text().catch(() => "");
     throw new Error(`Backend error ${res.status}: ${t || res.statusText}`)] *)
Definition backend_error (res : response) : exn :=
  let t := match text res with Ok t => t | Throw _ => "" end in
  Error ("Backend error " +:+ pretty (status res) +:+ ": "
         +:+ Str.or_else t (statusText res)).

(* ===================================================================== *)
(** * Pieces shared by the two builds *)
(* ===================================================================== *)

(** [rows || []] *)
Definition or_empty_array (rows : value) (h : heap) : value * heap :=
  if truthy rows then (rows, h) else alloc (Array []) h.

(** [arr.map(f)]: a new array; a [TypeError] when [arr] has no [map]
    method (it is not an array). *)
Definition map_method (f : value → heap → result (value * heap))
    (arr : value) (h : heap) : result (value * heap) :=
  match arr with
  | VRef l =>
      match h !! l with
      | Some (Array elems) =>
          '(outs, h1) ← array_map f elems h;
          Ok (alloc (Array outs) h1)
      | _ => Throw TypeError
      end
  | VUndefined | VNull | VBool _ | VNum _ | VStr _ => Throw TypeError
  end.

(** [obj[k] = v] on an object made by [{}], for a string [v]: the key
    [__proto__] reaches the inherited setter, which ignores a string; any
    other key becomes (or updates) an own property. *)
Definition assign (k v : string) (obj : gmap string string) : gmap string string :=
  if decide (k = "__proto__") then obj else <[k := v]> obj.

(** [headers.forEach((h, i) => (obj[h] = cells[i] ?? ""))], from index [i]. *)
Fixpoint forEach_assign (headers : list string) (i : nat) (cells : list string)
    (obj : gmap string string) : gmap string string :=
  match headers with
  | [] => obj
  | h :: headers' =>
      forEach_assign headers' (S i) cells (assign h (default "" (cells !! i)) obj)
  end.

(** The callback of [lines.slice(1).map]: one record per data line. *)
Definition parse_line (headers : list string) (line : string) : gmap string string :=
  let cells := Str.trim <$> Str.split_comma line in
  forEach_assign headers 0 cells ∅.

(** A [Set] of strings, in insertion order. *)
Definition Set_add (s : list string) (x : string) : list string :=
  if decide (x ∈ s) then s else s ++ [x].

(** [Array.from(new Set(xs))] *)
Definition Array_from_Set (xs : list string) : list string :=
  foldl Set_add [] xs.

(** [text.split(/\r?\n/).map((l) => l.trim()).filter(Boolean)] *)
Definition text_cves (text : string) : list string :=
  filter (λ l, Is_true (Str.nonempty l)) (Str.trim <$> Str.split_lines text).

(** [Array.from(new Set(parsed.map((r) => (r.CVE_ID || "").trim())
    .filter(Boolean)))] *)
Definition csv_cves (parsed : list (gmap string string)) : list string :=
  Array_from_Set
    (filter (λ c, Is_true (Str.nonempty c))
       ((λ r : gmap string string,
           Str.trim match r !! "CVE_ID" with
                    | Some c => Str.or_else c ""
                    | None => ""
                    end) <$> parsed)).

(* ===================================================================== *)
(** * Vocabulary of the statements *)
(* ===================================================================== *)

(** Own property [k] of an object, [undefined] when it has none. *)
Definition field (props : gmap string value) (k : string) : value :=
  default VUndefined (props !! k).

(** The first non-empty candidate, in the order given, and the empty string
    when there is none.  "Non-empty" is JavaScript truthiness: [undefined],
    [null], [""], [0], [NaN] and [false] count as empty. *)
Fixpoint first_nonempty (candidates : list value) : value :=
  match candidates with
  | [] => VStr ""
  | v :: candidates' => if truthy v then v else first_nonempty candidates'
  end.

(** The elements of the array [v] refers to. *)
Definition array_at (h : heap) (v : value) : option (list value) :=
  match v with
  | VRef l => match h !! l with Some (Array elems) => Some elems | _ => None end
  | _ => None
  end.

(** The own properties of the object [v] refers to. *)
Definition record_at (h : heap) (v : value) : option (gmap string value) :=
  match v with
  | VRef l => match h !! l with Some (Object props) => Some props | _ => None end
  | _ => None
  end.

(** [records_of h v = Some recs]: [v] is an array of objects, and [recs]
    are their own properties, in order. *)
Definition records_of (h : heap) (v : value) : option (list (gmap string value)) :=
  elems ← array_at h v; mapM (record_at h) elems.

(** The records a normalizer [f] returns for [rows] and [owner] on heap [h]
    ([None] when it throws or returns something else than an array of
    objects). *)
Definition normalized_records (f : value → string → heap → result (value * heap))
    (h : heap) (rows : value) (owner : string) : option (list (gmap string value)) :=
  match f rows owner h with
  | Ok (out, h') => records_of h' out
  | Throw _ => None
  end.

(** Field [k] of the [i]-th record a normalizer returns. *)
Definition normalized_field (f : value → string → heap → result (value * heap))
    (h : heap) (rows : value) (owner : string) (i : nat) (k : string)
  : option value :=
  match normalized_records f h rows owner with
  | Some outs => match outs !! i with Some o => o !! k | None => None end
  | None => None
  end.

(** The three fields the normalizer writes. *)
Definition written_fields : list string :=
  ["Description_Short"; "Remediation_Steps"; "Owner_Suggested"].

(** The brief as the specification words it: AI brief, then legacy brief
    description, then the existing short description. *)
Definition brief_by_precedence (props : gmap string value) : value :=
  first_nonempty [field props "AI_Brief"; field props "Brief_Description";
                  field props "Description_Short"].

(** The lines of a CSV text as [parseCSV] cuts them: header names, data
    lines, and the cells of a line. *)
Definition header_names (content : string) : list string :=
  Str.trim <$> Str.split_comma (default "" (head (Str.split_lines (Str.trim content)))).

Definition data_lines (content : string) : list string :=
  tail (Str.split_lines (Str.trim content)).

Definition cells_of (line : string) : list string :=
  Str.trim <$> Str.split_comma line.

(** [last_position names name i]: [i] is the last position of [name] in
    [names] (its only position when the names are distinct). *)
Definition last_position (names : list string) (name : string) (i : nat) : Prop :=
  names !! i = Some name ∧ ∀ j, i < j → names !! j ≠ Some name.

(** The reading of "each header name maps to the positionally-corresponding
    trimmed cell value, a missing cell giving the empty string", for a
    parser [parse] and a text [content]. *)
Definition maps_headers_positionally
    (parse : string → result (list (gmap string string))) (content : string) : Prop :=
  ∃ records, parse content = Ok records ∧
    length records = length (data_lines content) ∧
    ∀ k line record i name,
      data_lines content !! k = Some line →
      records !! k = Some record →
      header_names content !! i = Some name →
      record !! name = Some (default "" (cells_of line !! i)).

(* ===================================================================== *)
(** * The earlier build (src/app.jsx, lines 1-422) *)
(* ===================================================================== *)

Module Earlier.

(** The callback of [normalizeRows]: [r => ({ ...r, Description_Short: ...,
    Remediation_Steps: ..., Owner_Suggested: ... })], a new object. *)
Definition normalize_row (owner : string) (r : value) (h : heap)
  : result (value * heap) :=
  let props := spread h r in
  Description_Short ←
    get h r "Brief_Description" ||| get h r "Description_Short" ||| Ok (VStr "");
  Remediation_Steps ←
    get h r "Remediation_Links" ||| get h r "Remediation_Steps" ||| Ok (VStr "");
  Owner_Suggested ←
    Ok (VStr owner) ||| get h r "Owner_Suggested" ||| Ok (VStr "");
  Ok (alloc
        (Object
           (<["Owner_Suggested" := Owner_Suggested]>
              (<["Remediation_Steps" := Remediation_Steps]>
                 (<["Description_Short" := Description_Short]> props))))
        h).

(** The own properties of the object [normalize_row] makes from an
    object whose own properties are [props]. *)
Definition normalized (owner : string) (props : gmap string value)
  : gmap string value :=
  <["Owner_Suggested" :=
      first_nonempty [VStr owner; field props "Owner_Suggested"]]>
    (<["Remediation_Steps" :=
         first_nonempty [field props "Remediation_Links";
                         field props "Remediation_Steps"]]>
       (<["Description_Short" :=
            first_nonempty [field props "Brief_Description";
                            field props "Description_Short"]]> props)).

(** [function normalizeRows(rows, owner = "")] *)
Definition normalizeRows (rows : value) (owner : string) (h : heap)
  : result (value * heap) :=
  let '(arr, h0) := or_empty_array rows h in
  map_method (normalize_row owner) arr h0.

(** [function parseCSV(content)] *)
Definition parseCSV (content : string) : result (list (gmap string string)) :=
  let lines := Str.split_lines (Str.trim content) in
  match lines with
  | [] => Throw TypeError          (* [lines[0]] would be undefined *)
  | line0 :: data =>
      let headers := Str.trim <$> Str.split_comma line0 in
      Ok (parse_line headers <$> data)
  end.

(** [const enrich = async () => ...]; [reply] is what the [fetch] settles
    to when it is reached. *)
Definition enrich (hst : host) (text owner : string)
    (reply : result response) : M unit :=
  setLoading true;;
  try_catch_finally
    (let cves := text_cves text in
     when (bool_decide (cves = []))
       (alert "Please paste at least one CVE (e.g., CVE-2021-44228).";;
        return_);;
     when (API_missing hst)
       (alert "VITE_API_URL is not set in your Netlify env.";; return_);;
     res ← fetch (enrich_url hst) cves reply;
     when (negb (ok res)) (throw (backend_error res));;
     data ← res_json res;
     rows_field ← on_heap (λ h, v ← get h data "rows"; Ok (v, h));
     enriched ← on_heap (normalizeRows rows_field owner);
     setRows enriched)
    (λ e,
       console_write (LogError e);;
       alert (Str.or_else (message hst e) "Failed to enrich CVEs"))
    (setLoading false).

(** [const onUploadCSV = async (e) => ...]; [file] is
    [e.target.files?.[0]] given by what its [text()] settles to. *)
Definition onUploadCSV (hst : host) (owner : string)
    (file : option (result string)) (reply : result response) : M unit :=
  match file with
  | None => return_
  | Some file_text =>
      try_catch_finally
        (txt ← await file_text;
         parsed ← await (parseCSV txt);
         let cves := csv_cves parsed in
         when (bool_decide (cves = []))
           (alert "No CVE_ID values found in the CSV (need a 'CVE_ID' column).";; return_);;
         when (API_missing hst)
           (alert "VITE_API_URL is not set in your Netlify env.";; return_);;
         res ← fetch (enrich_url hst) cves reply;
         when (negb (ok res)) (throw (backend_error res));;
         data ← res_json res;
         rows_field ← on_heap (λ h, v ← get h data "rows"; Ok (v, h));
         enriched ← on_heap (normalizeRows rows_field owner);
         setRows enriched)
        (λ e,
           console_write (LogError e);;
           alert (Str.or_else (message hst e) "Failed to enrich CVEs from CSV"))
        reset_file_input
  end.

End Earlier.

(* ===================================================================== *)
(** * The later build (src/app.jsx, lines 423-807) *)
(* ===================================================================== *)

Module Later.

(** The callback of [normalizeRows]: [r => ({ ...r, Description_Short: ...,
    Remediation_Steps: ..., Owner_Suggested: ... })], a new object. *)
Definition normalize_row (owner : string) (r : value) (h : heap)
  : result (value * heap) :=
  let props := spread h r in
  Description_Short ←
    get h r "AI_Brief" ||| get h r "Brief_Description" ||| Ok (VStr "");
  Remediation_Steps ←
    get h r "Remediation_Links" ||| Ok (VStr "");
  Owner_Suggested ←
    Ok (VStr owner) ||| get h r "Owner_Suggested" ||| Ok (VStr "");
  Ok (alloc
        (Object
           (<["Owner_Suggested" := Owner_Suggested]>
              (<["Remediation_Steps" := Remediation_Steps]>
                 (<["Description_Short" := Description_Short]> props))))
        h).

(** The own properties of the object [normalize_row] makes from an
    object whose own properties are [props]. *)
Definition normalized (owner : string) (props : gmap string value)
  : gmap string value :=
  <["Owner_Suggested" :=
      first_nonempty [VStr owner; field props "Owner_Suggested"]]>
    (<["Remediation_Steps" := first_nonempty [field props "Remediation_Links"]]>
       (<["Description_Short" :=
            first_nonempty [field props "AI_Brief";
                            field props "Brief_Description"]]> props)).

(** [function normalizeRows(rows, owner = "")] *)
Definition normalizeRows (rows : value) (owner : string) (h : heap)
  : result (value * heap) :=
  let '(arr, h0) := or_empty_array rows h in
  map_method (normalize_row owner) arr h0.

(** [function parseCSV(content)] *)
Definition parseCSV (content : string) : result (list (gmap string string)) :=
  let lines := Str.split_lines (Str.trim content) in
  match lines with
  | [] => Ok []                    (* [if (!lines.length) return []] *)
  | line0 :: data =>
      let headers := Str.trim <$> Str.split_comma line0 in
      Ok (parse_line headers <$> data)
  end.

(** [const enrich = async () => ...]; [reply] is what the [fetch] settles
    to when it is reached. *)
Definition enrich (hst : host) (text owner : string)
    (reply : result response) : M unit :=
  setLoading true;;
  try_catch_finally
    (let cves := text_cves text in
     when (bool_decide (cves = []))
       (alert "Please paste at least one CVE (e.g., CVE-2021-44228).";;
        return_);;
     when (API_missing hst)
       (alert "VITE_API_URL is not set.";; return_);;
     res ← fetch (enrich_url hst) cves reply;
     when (negb (ok res)) (throw (backend_error res));;
     data ← res_json res;
     sample ← on_heap (λ h, Ok (opt_index0 h (opt_get h data "rows"), h));
     console_write (Log [VStr "API row sample:"; sample]);;
     rows_field ← on_heap (λ h, v ← get h data "rows"; Ok (v, h));
     enriched ← on_heap (normalizeRows rows_field owner);
     setRows enriched)
    (λ e,
       console_write (LogError e);;
       alert (Str.or_else (message hst e) "Failed to enrich CVEs"))
    (setLoading false).

(** [const onUploadCSV = async (e) => ...]; [file] is
    [e.target.files?.[0]] given by what its [text()] settles to. *)
Definition onUploadCSV (hst : host) (owner : string)
    (file : option (result string)) (reply : result response) : M unit :=
  match file with
  | None => return_
  | Some file_text =>
      try_catch_finally
        (txt ← await file_text;
         parsed ← await (parseCSV txt);
         let cves := csv_cves parsed in
         when (bool_decide (cves = []))
           (alert "No CVE_ID values found in CSV.";; return_);;
         when (API_missing hst)
           (alert "VITE_API_URL is not set.";; return_);;
         res ← fetch (enrich_url hst) cves reply;
         when (negb (ok res)) (throw (backend_error res));;
         data ← res_json res;
         rows_field ← on_heap (λ h, v ← get h data "rows"; Ok (v, h));
         enriched ← on_heap (normalizeRows rows_field owner);
         setRows enriched)
        (λ e,
           console_write (LogError e);;
           alert (Str.or_else (message hst e) "Failed to enrich CVEs from CSV"))
        reset_file_input
  end.

End Later.

(* ===================================================================== *)
(** * Submissions *)
(* ===================================================================== *)

Inductive variant : Type := EarlierBuild | LaterBuild.

(** A submission: the text pasted in the text area and sent by the
    "Enrich CVEs" button, or a chosen CSV file whose text was read. *)
Inductive submission : Type :=
| PastedText (text : string)
| UploadedCSV (content : string).

Definition submit (b : variant) (hst : host) (owner : string)
    (s : submission) (reply : result response) : M unit :=
  match b, s with
  | EarlierBuild, PastedText text => Earlier.enrich hst text owner reply
  | EarlierBuild, UploadedCSV content =>
      Earlier.onUploadCSV hst owner (Some (Ok content)) reply
  | LaterBuild, PastedText text => Later.enrich hst text owner reply
  | LaterBuild, UploadedCSV content =>
      Later.onUploadCSV hst owner (Some (Ok content)) reply
  end.

Definition parseCSV_of (b : variant) : string → result (list (gmap string string)) :=
  match b with
  | EarlierBuild => Earlier.parseCSV
  | LaterBuild => Later.parseCSV
  end.

Definition normalizeRows_of (b : variant)
  : value → string → heap → result (value * heap) :=
  match b with
  | EarlierBuild => Earlier.normalizeRows
  | LaterBuild => Later.normalizeRows
  end.

Definition normalized_of (b : variant)
  : string → gmap string value → gmap string value :=
  match b with
  | EarlierBuild => Earlier.normalized
  | LaterBuild => Later.normalized
  end.

(** The identifiers a submission produces (the handlers' [cves]). *)
Definition identifiers (b : variant) (s : submission) : list string :=
  match s with
  | PastedText text => text_cves text
  | UploadedCSV content =>
      match parseCSV_of b content with
      | Ok parsed => csv_cves parsed
      | Throw _ => []
      end
  end.

(** A line feed, and texts made of lines. *)
Definition LF : string := String "010" EmptyString.

Fixpoint unlines (lines : list string) : string :=
  match lines with
  | [] => EmptyString
  | [line] => line
  | line :: lines' => line +:+ LF +:+ unlines lines'
  end.

(** The page right after mounting: [useState([])], [useState(false)], an
    empty file input, nothing shown or sent yet. *)
Definition initial_world : world :=
  {| objects := [Array []]; rows := VRef 0; loading := false; alerts := [];
     console := []; requests := []; file_input := Some "" |}.

(** A configured host, for the examples. *)
Definition demo_host : host :=
  {| API := Some "https://api.example"; type_error_message := "TypeError" |}.

(* ===================================================================== *)
(** * The rest of the page: other events, summary bar, priority tag *)
(* ===================================================================== *)

Definition onUploadCSV_of (b : variant)
  : host → string → option (result string) → result response → M unit :=
  match b with
  | EarlierBuild => Earlier.onUploadCSV
  | LaterBuild => Later.onUploadCSV
  end.

(** A carriage return followed by a line feed, and texts whose lines end
    that way. *)
Definition CRLF : string := String "013" (String "010" EmptyString).

Fixpoint unlines_crlf (lines : list string) : string :=
  match lines with
  | [] => EmptyString
  | [line] => line
  | line :: lines' => line +:+ CRLF +:+ unlines_crlf lines'
  end.

(** [c] occurs in [s]. *)
Fixpoint has_char (c : ascii) (s : string) : bool :=
  match s with
  | EmptyString => false
  | String d s' => Ascii.eqb d c || has_char c s'
  end.

(** A string that can stand on a line of its own and come back unchanged:
    not empty, nothing to trim, no line feed inside. *)
Definition clean_line (c : string) : bool :=
  Str.nonempty c && bool_decide (Str.trim c = c) && negb (has_char "010" c).

(** [v == null]: [undefined] or [null], the values whose properties cannot
    be read. *)
Definition nullish (v : value) : bool :=
  match v with
  | VUndefined | VNull => true
  | VBool _ | VNum _ | VStr _ | VRef _ => false
  end.

(** What a field written by the normalizer can hold: a non-empty (truthy)
    value or the empty string, never [undefined] or [null]. *)
Definition filled (o : gmap string value) (k : string) : Prop :=
  ∃ x, o !! k = Some x ∧ (truthy x = true ∨ x = VStr "").

(** The callback of [normalizeRows] in build [b]. *)
Definition normalize_row_of (b : variant)
  : string → value → heap → result (value * heap) :=
  match b with
  | EarlierBuild => Earlier.normalize_row
  | LaterBuild => Later.normalize_row
  end.

(** What the handlers close over: the world and the states [text] and
    [owner]. *)
Record page : Type := {
  pg_world : world;
  pg_text : string;
  pg_owner : string;
}.

(** The page right after mounting: [useState("CVE-2021-44228\nCVE-2023-4863\n
    CVE-2024-3094")] and [useState("")]. *)
Definition initial_page : page :=
  {| pg_world := initial_world;
     pg_text := unlines ["CVE-2021-44228"; "CVE-2023-4863"; "CVE-2024-3094"];
     pg_owner := "" |}.

(** The text area and the owner input: [setText(e.target.value)],
    [setOwner(e.target.value)]. *)
Definition type_text (t : string) (p : page) : page :=
  {| pg_world := pg_world p; pg_text := t; pg_owner := pg_owner p |}.

Definition type_owner (o : string) (p : page) : page :=
  {| pg_world := pg_world p; pg_text := pg_text p; pg_owner := o |}.

(** The "Clear" button: [setRows([]); setText("")]. *)
Definition click_clear (p : page) : page :=
  {| pg_world :=
       ((v ← on_heap (λ h, Ok (alloc (Array []) h)); setRows v) (pg_world p)).2;
     pg_text := "";
     pg_owner := pg_owner p |}.

(** The "Enrich CVEs" button: [onClick={enrich} disabled={loading}]. *)
Definition click_enrich (b : variant) (hst : host) (reply : result response)
    (p : page) : page :=
  if loading (pg_world p) then p
  else
    {| pg_world :=
         (submit b hst (pg_owner p) (PastedText (pg_text p)) reply (pg_world p)).2;
       pg_text := pg_text p;
       pg_owner := pg_owner p |}.

(** [ToNumber(v)] where it needs no parsing of text: defined for
    [undefined], [null], booleans and numbers, [None] for strings and
    objects. *)
Definition ToNumber (v : value) : option float :=
  match v with
  | VUndefined => Some nan
  | VNull => Some 0%float
  | VBool b => Some (if b then 1%float else 0%float)
  | VNum n => Some n
  | VStr _ | VRef _ => None
  end.

#[local] Set Warnings "-inexact-float".


(** [rows.filter(test).length] *)
Definition filter_length (test : gmap string value → option bool)
    (recs : list (gmap string value)) : option nat :=
  flags ← mapM test recs; Some (length (filter (λ b : bool, Is_true b) flags)).

(** [rows.filter((r) => r.Priority_Score >= 0.8).length] *)
Definition totalHigh (recs : list (gmap string value)) : option nat :=
  filter_length
    (λ r, n ← ToNumber (field r "Priority_Score"); Some (0.8 <=? n)%float) recs.

(** [rows.filter((r) => r.Priority_Score >= 0.5 && r.Priority_Score < 0.8)
    .length] *)
Definition totalMedium (recs : list (gmap string value)) : option nat :=
  filter_length
    (λ r, n ← ToNumber (field r "Priority_Score");
          Some ((0.5 <=? n)%float && (n <? 0.8)%float)) recs.

(** [rows.filter((r) => r.Priority_Score < 0.5).length] *)
Definition totalLow (recs : list (gmap string value)) : option nat :=
  filter_length
    (λ r, n ← ToNumber (field r "Priority_Score"); Some (n <? 0.5)%float) recs.

#[local] Set Warnings "+inexact-float".

(** A row whose score is not a number once converted: [NaN] itself, or a
    missing score ([undefined]). *)
Definition score_is_nan (r : gmap string value) : bool :=
  match ToNumber (field r "Priority_Score") with
  | Some n => is_nan n
  | None => false
  end.

(* ===================================================================== *)
(** * Facts about strings *)
(* ===================================================================== *)

Section strings.
Import Str.

Lemma cons_first_not_nil c pieces : cons_first c pieces ≠ [].
Proof. by destruct pieces. Qed.

Lemma split_lines_not_nil s : split_lines s ≠ [].
Proof.
  destruct s as [|c s]; [done|]. simpl.
  destruct (Ascii.eqb c "010"); [done|].
  destruct s as [|c' s]; [apply cons_first_not_nil|].
  destruct (Ascii.eqb c "013" && Ascii.eqb c' "010"); [done|].
  apply cons_first_not_nil.
Qed.

Lemma split_comma_not_nil s : split_comma s ≠ [].
Proof.
  destruct s as [|c s]; [done|]. simpl.
  destruct (Ascii.eqb c ","); [done|apply cons_first_not_nil].
Qed.

Lemma trimEnd_idemp s : trimEnd (trimEnd s) = trimEnd s.
Proof.
  induction s as [|c s IH]; [done|]. simpl.
  destruct (trimEnd s) as [|d t] eqn:Ht.
  - destruct (is_white_space c) eqn:Hc; simpl; [done|by rewrite Hc].
  - simpl in *. by rewrite IH.
Qed.

(** What [trimStart] returns is empty or starts with a character that is
    not white space. *)
Lemma trimStart_head s c t :
  trimStart s = String c t → is_white_space c = false.
Proof.
  induction s as [|d s IH]; [done|]. simpl.
  destruct (is_white_space d) eqn:Hd; [done|].
  by intros [= -> ->].
Qed.

Lemma trimEnd_head c s :
  is_white_space c = false → ∃ t, trimEnd (String c s) = String c t.
Proof.
  intros Hc. simpl. destruct (trimEnd s); rewrite ?Hc; eauto.
Qed.

Lemma trim_idemp s : trim (trim s) = trim s.
Proof.
  unfold trim. destruct (trimStart s) as [|c t] eqn:Hs; [done|].
  pose proof (trimStart_head _ _ _ Hs) as Hc.
  destruct (trimEnd_head c t Hc) as [t' Ht']. rewrite Ht'.
  simpl trimStart. rewrite Hc, <- Ht'. apply trimEnd_idemp.
Qed.

Lemma str_or_else_empty s : or_else s "" = s.
Proof. by destruct s. Qed.

Lemma nonempty_true s : Is_true (nonempty s) ↔ s ≠ "".
Proof. destruct s; simpl; split; done. Qed.

End strings.

(* ===================================================================== *)
(** * CSV ingestion and identifier extraction *)
(* ===================================================================== *)

Section csv.

Lemma Set_add_NoDup s x : NoDup s → NoDup (Set_add s x).
Proof.
  intros Hs. unfold Set_add. case_decide; [done|].
  apply NoDup_app. split_and!; [done| |apply NoDup_singleton].
  intros y Hy ->%list_elem_of_singleton. done.
Qed.

Lemma elem_of_Set_add s x y : y ∈ Set_add s x ↔ y ∈ s ∨ y = x.
Proof.
  unfold Set_add. case_decide.
  - split; [by left|]. by intros [?| ->].
  - rewrite elem_of_app, list_elem_of_singleton. done.
Qed.

Lemma foldl_Set_add_NoDup xs : ∀ s, NoDup s → NoDup (foldl Set_add s xs).
Proof.
  induction xs as [|x xs IH]; intros s Hs; simpl; [done|].
  by apply IH, Set_add_NoDup.
Qed.

Lemma elem_of_foldl_Set_add xs : ∀ s y,
  y ∈ foldl Set_add s xs ↔ y ∈ s ∨ y ∈ xs.
Proof.
  induction xs as [|x xs IH]; intros s y; simpl.
  - rewrite elem_of_nil. tauto.
  - rewrite IH, elem_of_Set_add, elem_of_cons. tauto.
Qed.

Lemma Array_from_Set_NoDup xs : NoDup (Array_from_Set xs).
Proof. apply foldl_Set_add_NoDup, NoDup_nil_2. Qed.

Lemma elem_of_Array_from_Set xs y : y ∈ Array_from_Set xs ↔ y ∈ xs.
Proof.
  unfold Array_from_Set. rewrite elem_of_foldl_Set_add, elem_of_nil.
  tauto.
Qed.

Lemma lookup_assign_eq k v obj :
  k ≠ "__proto__" → assign k v obj !! k = Some v.
Proof. intros Hk. unfold assign. case_decide; [done|]. apply lookup_insert_eq. Qed.

Lemma lookup_assign_ne k k' v obj : k ≠ k' → assign k v obj !! k' = obj !! k'.
Proof. intros Hk. unfold assign. case_decide; [done|]. by apply lookup_insert_ne. Qed.

(** A name that is not among the headers is left as it was. *)
Lemma forEach_assign_other headers name : ∀ i cells obj,
  (∀ j, headers !! j ≠ Some name) →
  forEach_assign headers i cells obj !! name = obj !! name.
Proof.
  induction headers as [|h headers IH]; intros i cells obj Hno; simpl; [done|].
  rewrite IH; [|intros j; apply (Hno (S j))].
  apply lookup_assign_ne. intros ->. by apply (Hno 0).
Qed.

(** After the loop a header name holds the cell at its last position. *)
Lemma forEach_assign_last headers name : ∀ i j cells obj,
  last_position headers name j → name ≠ "__proto__" →
  forEach_assign headers i cells obj !! name = Some (default "" (cells !! (i + j))).
Proof.
  induction headers as [|h headers IH]; intros i j cells obj [Hj Hlast] Hname.
  - done.
  - destruct j as [|j]; simpl in *.
    + injection Hj as ->. rewrite forEach_assign_other.
      * rewrite Nat.add_0_r. by apply lookup_assign_eq.
      * intros j. apply (Hlast (S j)). lia.
    + rewrite (IH (S i) j); [by rewrite Nat.add_succ_r|split; [done|]|done].
      intros j' Hj'. apply (Hlast (S j')). lia.
Qed.

Lemma parse_line_last headers name line i :
  last_position headers name i → name ≠ "__proto__" →
  parse_line headers line !! name = Some (default "" (cells_of line !! i)).
Proof. intros. unfold parse_line. by rewrite (forEach_assign_last _ name 0 i). Qed.

(** Both builds parse alike: the guard of the later build on an empty line
    list is never taken, and the earlier build never reads a missing
    first line. *)
Lemma Later_parseCSV_eq content :
  Later.parseCSV content = Ok (parse_line (header_names content) <$> data_lines content).
Proof.
  unfold Later.parseCSV, header_names, data_lines.
  pose proof (split_lines_not_nil (Str.trim content)).
  by destruct (Str.split_lines (Str.trim content)).
Qed.

Lemma Earlier_parseCSV_eq content :
  Earlier.parseCSV content = Ok (parse_line (header_names content) <$> data_lines content).
Proof.
  unfold Earlier.parseCSV, header_names, data_lines.
  pose proof (split_lines_not_nil (Str.trim content)).
  by destruct (Str.split_lines (Str.trim content)).
Qed.

Lemma parseCSV_builds_agree content :
  Earlier.parseCSV content = Later.parseCSV content.
Proof. by rewrite Earlier_parseCSV_eq, Later_parseCSV_eq. Qed.

(** The identifier a record contributes is its trimmed [CVE_ID] cell. *)
Lemma csv_cves_elem parsed c :
  c ∈ csv_cves parsed ↔
  c ≠ "" ∧ ∃ r, r ∈ parsed ∧ c = Str.trim (default "" (r !! "CVE_ID")).
Proof.
  unfold csv_cves. rewrite elem_of_Array_from_Set, list_elem_of_filter,
    nonempty_true, list_elem_of_fmap.
  split.
  - intros [Hc (r & -> & Hr)]. split; [done|]. exists r. split; [done|].
    destruct (r !! "CVE_ID") as [v|]; simpl; [by rewrite str_or_else_empty|done].
  - intros [Hc (r & Hr & ->)]. split; [done|]. exists r. split; [|done].
    destruct (r !! "CVE_ID") as [v|]; simpl; [by rewrite str_or_else_empty|done].
Qed.

End csv.


Section csv_claims.

Lemma parseCSV_of_eq b content :
  parseCSV_of b content = Ok (parse_line (header_names content) <$> data_lines content).
Proof. destruct b; [apply Earlier_parseCSV_eq|apply Later_parseCSV_eq]. Qed.

Lemma last_position_exists names name :
  name ∈ names → ∃ i, last_position names name i.
Proof.
induction names as [|n names IH]; [by intros ?%elem_of_nil|].
intros Hin. destruct (decide (name ∈ names)) as [Hlater|Hnot].
- destruct (IH Hlater) as (i & Hi & Hlast). exists (S i). split; [done|].
  intros [|j] Hj; [lia|]. apply Hlast. lia.
- apply elem_of_cons in Hin as [->|?]; [|done].
  exists 0. split; [done|]. intros [|j] Hj; [lia|]. simpl.
  intros Hj'. apply Hnot. by eapply list_elem_of_lookup_2.
Qed.

Lemma trim_cell (line : string) (i : nat) :
  Str.trim (default "" (cells_of line !! i))
  = Str.trim (default "" (Str.split_comma line !! i)).
Proof.
unfold cells_of. rewrite list_lookup_fmap.
destruct (Str.split_comma line !! i); simpl; [apply trim_idemp|done].
Qed.

(** The parser at work: cells are trimmed and a short line is padded with
    empty strings; a blank text has no record. *)
Example parseCSV_short_line (b : variant) :
  parseCSV_of b (unlines ["CVE_ID, Asset"; "CVE-2021-44228"; " CVE-2023-4863 , web "])
  = Ok [{[ "CVE_ID" := "CVE-2021-44228"; "Asset" := "" ]};
        {[ "CVE_ID" := "CVE-2023-4863"; "Asset" := "web" ]}].
Proof. destruct b; vm_compute; reflexivity. Qed.

Example parseCSV_blank (b : variant) : parseCSV_of b "   " = Ok [].
Proof. by destruct b. Qed.

Example parseCSV_repeated_header (b : variant) :
  parseCSV_of b (unlines ["a,a"; "1,2"]) = Ok [{[ "a" := "2" ]}].
Proof. destruct b; vm_compute; reflexivity. Qed.

(** C5 (amended).  In both builds [parseCSV] returns for every text: one
    record per line after the first line of the trimmed text; in each
    record, every header name other than [__proto__] holds the trimmed
    cell found at the last position where that name occurs in the header
    row (its own position when the header names are distinct), and the
    empty string when the line has no cell there; a blank text gives no
    record. *)
Theorem parseCSV_total_last_header_position (b : variant) (content : string) :
  ∃ records,
    parseCSV_of b content = Ok records ∧
    length records = length (data_lines content) ∧
    (∀ k line record i name,
       data_lines content !! k = Some line →
       records !! k = Some record →
       last_position (header_names content) name i →
       name ≠ "__proto__" →
       record !! name = Some (default "" (cells_of line !! i)) ∧
       (length (cells_of line) ≤ i → record !! name = Some "")) ∧
    (Str.trim content = "" → records = []).
Proof.
exists (parse_line (header_names content) <$> data_lines content).
split; [apply parseCSV_of_eq|]. split; [by rewrite length_fmap|]. split.
- intros k line record i name Hline Hrec Hpos Hname.
  rewrite list_lookup_fmap, Hline in Hrec. injection Hrec as <-.
  rewrite (parse_line_last _ name line i) by done. split; [done|].
  intros Hshort. by rewrite lookup_ge_None_2.
- intros Hblank. unfold data_lines. by rewrite Hblank.
Qed.

(** C5, as stated, fails where a header name is repeated (the record keeps
    the cell of the last occurrence, not of each position) and for the
    header name [__proto__] (the record gets no such property). *)
Lemma parseCSV_repeated_header_counterexample :
  ¬ maps_headers_positionally Later.parseCSV (unlines ["a,a"; "1,2"]) ∧
  ¬ maps_headers_positionally Earlier.parseCSV (unlines ["a,a"; "1,2"]) ∧
  ¬ maps_headers_positionally Later.parseCSV (unlines ["__proto__"; "x"]).
Proof.
split_and!; intros (records & Hparse & _ & Hmap).
- rewrite Later_parseCSV_eq in Hparse. injection Hparse as <-.
  specialize (Hmap 0 "1,2" (parse_line ["a"; "a"] "1,2") 0 "a").
  vm_compute in Hmap. by specialize (Hmap eq_refl eq_refl eq_refl).
- rewrite Earlier_parseCSV_eq in Hparse. injection Hparse as <-.
  specialize (Hmap 0 "1,2" (parse_line ["a"; "a"] "1,2") 0 "a").
  vm_compute in Hmap. by specialize (Hmap eq_refl eq_refl eq_refl).
- rewrite Later_parseCSV_eq in Hparse. injection Hparse as <-.
  specialize (Hmap 0 "x" (parse_line ["__proto__"] "x") 0 "__proto__").
  vm_compute in Hmap. by specialize (Hmap eq_refl eq_refl eq_refl).
Qed.

(** C4.  For every CSV text whose header row contains [CVE_ID], at position
    [i] (the last such position, should the header repeat the name), the
    identifiers extracted from the upload have no duplicates and are exactly
    the non-empty trimmed values of cell [i] of the data lines. *)
Theorem csv_identifiers_distinct_column_values (b : variant) (content : string) :
  "CVE_ID" ∈ header_names content →
  ∃ i, last_position (header_names content) "CVE_ID" i ∧
    NoDup (identifiers b (UploadedCSV content)) ∧
    ∀ c, c ∈ identifiers b (UploadedCSV content) ↔
         c ≠ "" ∧ ∃ line, line ∈ data_lines content ∧
                          c = Str.trim (default "" (Str.split_comma line !! i)).
Proof.
intros Hin. destruct (last_position_exists _ _ Hin) as [i Hi].
exists i. split; [done|]. unfold identifiers. rewrite parseCSV_of_eq.
split; [apply Array_from_Set_NoDup|]. intros c. rewrite csv_cves_elem.
split.
- intros [Hc (r & Hr & ->)]. split; [done|].
  apply list_elem_of_fmap in Hr as (line & -> & Hline). exists line.
  split; [done|]. rewrite (parse_line_last _ "CVE_ID" line i) by done.
  apply trim_cell.
- intros [Hc (line & Hline & ->)]. split; [done|].
  exists (parse_line (header_names content) line).
  split; [by apply list_elem_of_fmap_2|].
  rewrite (parse_line_last _ "CVE_ID" line i) by done.
  symmetry. apply trim_cell.
Qed.

Lemma csv_identifiers_distinct_column_values_witness :
  ∃ i, last_position (header_names (unlines ["CVE_ID,Asset"; "A,1"; "B"; " A ,3"; ",4"]))
         "CVE_ID" i ∧
    NoDup (identifiers LaterBuild
             (UploadedCSV (unlines ["CVE_ID,Asset"; "A,1"; "B"; " A ,3"; ",4"]))) ∧
    ∀ c, c ∈ identifiers LaterBuild
               (UploadedCSV (unlines ["CVE_ID,Asset"; "A,1"; "B"; " A ,3"; ",4"])) ↔
         c ≠ "" ∧ ∃ line,
           line ∈ data_lines (unlines ["CVE_ID,Asset"; "A,1"; "B"; " A ,3"; ",4"]) ∧
           c = Str.trim (default "" (Str.split_comma line !! i)).
Proof.
apply (csv_identifiers_distinct_column_values LaterBuild
         (unlines ["CVE_ID,Asset"; "A,1"; "B"; " A ,3"; ",4"])).
vm_compute. apply list_elem_of_here.
Defined.

End csv_claims.


(* ===================================================================== *)
(** * The row normalizer *)
(* ===================================================================== *)

Section normalizer.

Lemma record_at_app h h2 v props :
  record_at h v = Some props → record_at (h ++ h2) v = Some props.
Proof.
destruct v as [| | | | |l]; try done. simpl.
destruct (h !! l) as [c|] eqn:Hl; [|done].
by rewrite (lookup_app_l_Some _ _ _ _ Hl).
Qed.

Lemma array_at_app h h2 v elems :
  array_at h v = Some elems → array_at (h ++ h2) v = Some elems.
Proof.
destruct v as [| | | | |l]; try done. simpl.
destruct (h !! l) as [c|] eqn:Hl; [|done].
by rewrite (lookup_app_l_Some _ _ _ _ Hl).
Qed.

Lemma record_at_inv h v props :
  record_at h v = Some props → ∃ l, v = VRef l ∧ h !! l = Some (Object props).
Proof.
destruct v as [| | | | |l]; try done. simpl.
destruct (h !! l) as [[p|e]|] eqn:Hl; try done.
intros [= ->]. eauto.
Qed.

Lemma array_at_inv h v elems :
  array_at h v = Some elems → ∃ l, v = VRef l ∧ h !! l = Some (Array elems).
Proof.
destruct v as [| | | | |l]; try done. simpl.
destruct (h !! l) as [[p|e]|] eqn:Hl; try done.
intros [= ->]. eauto.
Qed.

Lemma or_else_1 a : Ok a ||| Ok (VStr "") = Ok (first_nonempty [a]).
Proof. unfold or_else. simpl. by destruct (truthy a). Qed.

Lemma or_else_2 a b : Ok a ||| Ok b ||| Ok (VStr "") = Ok (first_nonempty [a; b]).
Proof.
unfold or_else. simpl.
destruct (truthy a) eqn:Ea; simpl; rewrite ?Ea; [done|].
by destruct (truthy b) eqn:Eb; simpl; rewrite ?Eb.
Qed.

(** The two callbacks on an object: a new object with the closed-form
    properties, and nothing else touched. *)
Lemma Earlier_normalize_row_object owner l props h :
  h !! l = Some (Object props) →
  Earlier.normalize_row owner (VRef l) h
  = Ok (alloc (Object (Earlier.normalized owner props)) h).
Proof.
intros Hl. unfold Earlier.normalize_row, Earlier.normalized, get, spread, field.
rewrite Hl, !or_else_2, ?or_else_1. done.
Qed.

Lemma Later_normalize_row_object owner l props h :
  h !! l = Some (Object props) →
  Later.normalize_row owner (VRef l) h
  = Ok (alloc (Object (Later.normalized owner props)) h).
Proof.
intros Hl. unfold Later.normalize_row, Later.normalized, get, spread, field.
rewrite Hl, !or_else_2, ?or_else_1. done.
Qed.

Section callback.
Variable f : value → heap → result (value * heap).
Variable F : gmap string value → gmap string value.
Hypothesis f_object : ∀ l props h,
  h !! l = Some (Object props) → f (VRef l) h = Ok (alloc (Object (F props)) h).

Lemma array_map_objects elems : ∀ recs h,
  mapM (record_at h) elems = Some recs →
  array_map f elems h
  = Ok (VRef <$> seq (length h) (length recs), h ++ (Object ∘ F <$> recs)).
Proof.
induction elems as [|r elems IH]; intros recs h Hrecs.
- injection Hrecs as <-. simpl. by rewrite app_nil_r.
- apply mapM_Some in Hrecs.
  apply Forall2_cons_inv_l in Hrecs as (p & recs' & Hr & Hrest & ->).
  apply record_at_inv in Hr as (l & -> & Hl).
  simpl. rewrite (f_object _ _ _ Hl). simpl.
  rewrite (IH recs' (h ++ [Object (F p)])).
  + simpl. rewrite length_app, Nat.add_1_r, <- app_assoc. done.
  + apply mapM_Some. eapply Forall2_impl; [done|].
    intros v p' Hv. by apply record_at_app.
Qed.

Lemma map_method_records h rows recs :
  records_of h rows = Some recs →
  (let '(arr, h0) := or_empty_array rows h in map_method f arr h0)
  = Ok (VRef (length h + length recs),
        h ++ (Object ∘ F <$> recs) ++ [Array (VRef <$> seq (length h) (length recs))]).
Proof.
unfold records_of. destruct (array_at h rows) as [elems|] eqn:Harr; [|done].
simpl. intros Hrecs. apply array_at_inv in Harr as (l & -> & Hl).
unfold or_empty_array. simpl. rewrite Hl.
rewrite (array_map_objects _ _ _ Hrecs). simpl. unfold alloc.
by rewrite length_app, length_fmap, <- app_assoc.
Qed.

Lemma records_of_new_array h recs :
  records_of
    (h ++ (Object ∘ F <$> recs) ++ [Array (VRef <$> seq (length h) (length recs))])
    (VRef (length h + length recs))
  = Some (F <$> recs).
Proof.
unfold records_of. simpl.
rewrite lookup_app_r by lia. rewrite lookup_app_r by (rewrite length_fmap; lia).
rewrite length_fmap. replace (_ - _ - _) with 0 by lia. simpl.
apply mapM_Some, Forall2_same_length_lookup_2.
- by rewrite !length_fmap, length_seq.
- intros i v p Hv Hp.
  apply list_lookup_fmap_Some in Hv as (n & -> & Hn).
  apply list_lookup_fmap_Some in Hp as (r & -> & Hr).
  apply lookup_seq in Hn as [-> Hi]. simpl.
  rewrite lookup_app_r by lia.
  replace (length h + i - length h) with i by lia.
  rewrite lookup_app_l by (rewrite length_fmap; lia).
  by rewrite list_lookup_fmap, Hr.
Qed.

End callback.

Lemma Earlier_normalizeRows_records h rows owner recs :
  records_of h rows = Some recs →
  Earlier.normalizeRows rows owner h
  = Ok (VRef (length h + length recs),
        h ++ (Object ∘ Earlier.normalized owner <$> recs)
          ++ [Array (VRef <$> seq (length h) (length recs))]).
Proof.
apply map_method_records. intros. by apply Earlier_normalize_row_object.
Qed.

Lemma Later_normalizeRows_records h rows owner recs :
  records_of h rows = Some recs →
  Later.normalizeRows rows owner h
  = Ok (VRef (length h + length recs),
        h ++ (Object ∘ Later.normalized owner <$> recs)
          ++ [Array (VRef <$> seq (length h) (length recs))]).
Proof.
apply map_method_records. intros. by apply Later_normalize_row_object.
Qed.

Lemma Earlier_normalized_records h rows owner recs :
  records_of h rows = Some recs →
  normalized_records Earlier.normalizeRows h rows owner
  = Some (Earlier.normalized owner <$> recs).
Proof.
intros Hrecs. unfold normalized_records.
rewrite (Earlier_normalizeRows_records _ _ _ _ Hrecs).
apply records_of_new_array.
Qed.

Lemma Later_normalized_records h rows owner recs :
  records_of h rows = Some recs →
  normalized_records Later.normalizeRows h rows owner
  = Some (Later.normalized owner <$> recs).
Proof.
intros Hrecs. unfold normalized_records.
rewrite (Later_normalizeRows_records _ _ _ _ Hrecs).
apply records_of_new_array.
Qed.

End normalizer.


Section normalizer_claims.

Lemma normalizeRows_of_records b h rows owner recs :
  records_of h rows = Some recs →
  normalizeRows_of b rows owner h
  = Ok (VRef (length h + length recs),
        h ++ (Object ∘ normalized_of b owner <$> recs)
          ++ [Array (VRef <$> seq (length h) (length recs))]).
Proof.
destruct b; [apply Earlier_normalizeRows_records|apply Later_normalizeRows_records].
Qed.

Lemma normalized_of_records b h rows owner recs :
  records_of h rows = Some recs →
  normalized_records (normalizeRows_of b) h rows owner
  = Some (normalized_of b owner <$> recs).
Proof.
destruct b; [apply Earlier_normalized_records|apply Later_normalized_records].
Qed.

Lemma Forall2_fmap_self {A B} (g : A → B) (P : A → B → Prop) (l : list A) :
  (∀ x, x ∈ l → P x (g x)) → Forall2 P l (g <$> l).
Proof.
intros HP. apply Forall2_fmap_r, Forall_Forall2_diag, Forall_forall. done.
Qed.

Lemma Later_brief owner r :
  Later.normalized owner r !! "Description_Short"
  = Some (first_nonempty [field r "AI_Brief"; field r "Brief_Description"]).
Proof.
unfold Later.normalized.
rewrite lookup_insert_ne, lookup_insert_ne by done. apply lookup_insert_eq.
Qed.

Lemma Earlier_brief owner r :
  Earlier.normalized owner r !! "Description_Short"
  = Some (first_nonempty [field r "Brief_Description"; field r "Description_Short"]).
Proof.
unfold Earlier.normalized.
rewrite lookup_insert_ne, lookup_insert_ne by done. apply lookup_insert_eq.
Qed.

Lemma Later_steps owner r :
  Later.normalized owner r !! "Remediation_Steps"
  = Some (first_nonempty [field r "Remediation_Links"]).
Proof.
unfold Later.normalized. rewrite lookup_insert_ne by done. apply lookup_insert_eq.
Qed.

Lemma Earlier_steps owner r :
  Earlier.normalized owner r !! "Remediation_Steps"
  = Some (first_nonempty [field r "Remediation_Links"; field r "Remediation_Steps"]).
Proof.
unfold Earlier.normalized. rewrite lookup_insert_ne by done. apply lookup_insert_eq.
Qed.

Lemma normalized_of_owner b owner r :
  normalized_of b owner r !! "Owner_Suggested"
  = Some (first_nonempty [VStr owner; field r "Owner_Suggested"]).
Proof. destruct b; apply lookup_insert_eq. Qed.

Lemma normalized_of_other b owner r k :
  k ∉ written_fields → normalized_of b owner r !! k = r !! k.
Proof.
unfold written_fields. rewrite !not_elem_of_cons. intros (H1 & H2 & H3 & _).
destruct b; simpl; unfold Earlier.normalized, Later.normalized;
  by rewrite !lookup_insert_ne.
Qed.

(** C2 (amended).  For every list of records, each build computes the brief
    [Description_Short] of a record from two fields only: the later build
    takes the first non-empty of [AI_Brief], [Brief_Description] and the
    empty string when both are empty, not consulting the record's existing
    [Description_Short]; the earlier build takes the first non-empty of
    [Brief_Description], [Description_Short], not consulting [AI_Brief].
    In the later build a record with [AI_Brief = "x"] and
    [Brief_Description = "y"] gets ["x"], and one with only
    [Brief_Description = "y"] gets ["y"]. *)
Theorem brief_first_nonempty_of_two_fields h rows owner recs :
  records_of h rows = Some recs →
  (∃ outs, normalized_records Later.normalizeRows h rows owner = Some outs ∧
     Forall2 (λ r o,
       o !! "Description_Short"
         = Some (first_nonempty [field r "AI_Brief"; field r "Brief_Description"]) ∧
       (r !! "AI_Brief" = Some (VStr "x") → r !! "Brief_Description" = Some (VStr "y") →
        o !! "Description_Short" = Some (VStr "x")) ∧
       (r !! "AI_Brief" = None → r !! "Brief_Description" = Some (VStr "y") →
        o !! "Description_Short" = Some (VStr "y"))) recs outs) ∧
  (∃ outs, normalized_records Earlier.normalizeRows h rows owner = Some outs ∧
     Forall2 (λ r o,
       o !! "Description_Short"
         = Some (first_nonempty [field r "Brief_Description";
                                 field r "Description_Short"])) recs outs).
Proof.
intros Hrecs. split.
- eexists. split; [by apply Later_normalized_records|].
  apply Forall2_fmap_self. intros r _. rewrite Later_brief.
  split_and!; [done| |]; unfold field; by intros -> ->.
- eexists. split; [by apply Earlier_normalized_records|].
  apply Forall2_fmap_self. intros r _. by rewrite Earlier_brief.
Qed.

Lemma brief_first_nonempty_of_two_fields_witness :
  (∃ outs,
     normalized_records Later.normalizeRows
       [Object {[ "AI_Brief" := VStr "x"; "Brief_Description" := VStr "y" ]};
        Array [VRef 0]] (VRef 1) "" = Some outs ∧
     Forall2 (λ r o,
       o !! "Description_Short"
         = Some (first_nonempty [field r "AI_Brief"; field r "Brief_Description"]) ∧
       (r !! "AI_Brief" = Some (VStr "x") → r !! "Brief_Description" = Some (VStr "y") →
        o !! "Description_Short" = Some (VStr "x")) ∧
       (r !! "AI_Brief" = None → r !! "Brief_Description" = Some (VStr "y") →
        o !! "Description_Short" = Some (VStr "y")))
       [{[ "AI_Brief" := VStr "x"; "Brief_Description" := VStr "y" ]}] outs) ∧
  (∃ outs,
     normalized_records Earlier.normalizeRows
       [Object {[ "AI_Brief" := VStr "x"; "Brief_Description" := VStr "y" ]};
        Array [VRef 0]] (VRef 1) "" = Some outs ∧
     Forall2 (λ r o,
       o !! "Description_Short"
         = Some (first_nonempty [field r "Brief_Description";
                                 field r "Description_Short"]))
       [{[ "AI_Brief" := VStr "x"; "Brief_Description" := VStr "y" ]}] outs).
Proof.
apply (brief_first_nonempty_of_two_fields
         [Object {[ "AI_Brief" := VStr "x"; "Brief_Description" := VStr "y" ]};
          Array [VRef 0]] (VRef 1) ""
         [{[ "AI_Brief" := VStr "x"; "Brief_Description" := VStr "y" ]}]).
reflexivity.
Defined.

(** C2, as stated, fails in both builds: the later build drops an existing
    [Description_Short] when the two brief fields are empty, and the earlier
    build does not look at [AI_Brief]. *)
Lemma brief_precedence_counterexample :
  normalized_field Later.normalizeRows
    [Object {[ "Description_Short" := VStr "z" ]}; Array [VRef 0]] (VRef 1) ""
    0 "Description_Short"
  ≠ Some (brief_by_precedence {[ "Description_Short" := VStr "z" ]}) ∧
  normalized_field Earlier.normalizeRows
    [Object {[ "AI_Brief" := VStr "x"; "Brief_Description" := VStr "y" ]};
     Array [VRef 0]] (VRef 1) ""
    0 "Description_Short"
  ≠ Some (brief_by_precedence
            {[ "AI_Brief" := VStr "x"; "Brief_Description" := VStr "y" ]}).
Proof. split; vm_compute; discriminate. Qed.

(** What the two builds return on the inputs of the counterexample. *)
Example later_drops_existing_short_description :
  normalized_field Later.normalizeRows
    [Object {[ "Description_Short" := VStr "z" ]}; Array [VRef 0]] (VRef 1) ""
    0 "Description_Short" = Some (VStr "").
Proof. vm_compute. reflexivity. Qed.

Example earlier_ignores_AI_Brief :
  normalized_field Earlier.normalizeRows
    [Object {[ "AI_Brief" := VStr "x"; "Brief_Description" := VStr "y" ]};
     Array [VRef 0]] (VRef 1) ""
    0 "Description_Short" = Some (VStr "y").
Proof. vm_compute. reflexivity. Qed.

(** C6.  For every list of records and every default owner, in both builds:
    a non-empty default owner becomes the record's [Owner_Suggested],
    whatever owner the record carried; with an empty default the record
    keeps its own owner value, and gets the empty string when it has none
    (absent or empty, i.e. falsy). *)
Theorem owner_default_overrides (b : variant) h rows owner recs :
  records_of h rows = Some recs →
  ∃ outs, normalized_records (normalizeRows_of b) h rows owner = Some outs ∧
    Forall2 (λ r o,
      (owner ≠ "" → o !! "Owner_Suggested" = Some (VStr owner)) ∧
      (owner = "" → truthy (field r "Owner_Suggested") = true →
       o !! "Owner_Suggested" = Some (field r "Owner_Suggested")) ∧
      (owner = "" → truthy (field r "Owner_Suggested") = false →
       o !! "Owner_Suggested" = Some (VStr "")) ∧
      (owner = "" → ∀ s, r !! "Owner_Suggested" = Some (VStr s) →
       o !! "Owner_Suggested" = Some (VStr s)) ∧
      (owner = "" → r !! "Owner_Suggested" = None →
       o !! "Owner_Suggested" = Some (VStr ""))) recs outs.
Proof.
intros Hrecs. eexists. split; [by apply normalized_of_records|].
apply Forall2_fmap_self. intros r _. rewrite normalized_of_owner. simpl.
split_and!.
- intros Howner. by destruct owner.
- intros -> Ht. simpl. by rewrite Ht.
- intros -> Ht. simpl. by rewrite Ht.
- intros -> s Hs. unfold field. rewrite Hs. simpl. by destruct s.
- intros -> Hs. unfold field. by rewrite Hs.
Qed.

Lemma owner_default_overrides_witness :
  ∃ outs,
    normalized_records (normalizeRows_of LaterBuild)
      [Object {[ "CVE_ID" := VStr "CVE-2021-44228";
                 "Owner_Suggested" := VStr "ops@x.com" ]};
       Object {[ "CVE_ID" := VStr "CVE-2023-4863" ]};
       Array [VRef 0; VRef 1]] (VRef 2) "team@x.com" = Some outs ∧
    Forall2 (λ r o,
      ("team@x.com" ≠ "" → o !! "Owner_Suggested" = Some (VStr "team@x.com")) ∧
      ("team@x.com" = "" → truthy (field r "Owner_Suggested") = true →
       o !! "Owner_Suggested" = Some (field r "Owner_Suggested")) ∧
      ("team@x.com" = "" → truthy (field r "Owner_Suggested") = false →
       o !! "Owner_Suggested" = Some (VStr "")) ∧
      ("team@x.com" = "" → ∀ s, r !! "Owner_Suggested" = Some (VStr s) →
       o !! "Owner_Suggested" = Some (VStr s)) ∧
      ("team@x.com" = "" → r !! "Owner_Suggested" = None →
       o !! "Owner_Suggested" = Some (VStr "")))
      [{[ "CVE_ID" := VStr "CVE-2021-44228"; "Owner_Suggested" := VStr "ops@x.com" ]};
       {[ "CVE_ID" := VStr "CVE-2023-4863" ]}] outs.
Proof.
apply (owner_default_overrides LaterBuild
         [Object {[ "CVE_ID" := VStr "CVE-2021-44228";
                    "Owner_Suggested" := VStr "ops@x.com" ]};
          Object {[ "CVE_ID" := VStr "CVE-2023-4863" ]};
          Array [VRef 0; VRef 1]] (VRef 2) "team@x.com"
         [{[ "CVE_ID" := VStr "CVE-2021-44228"; "Owner_Suggested" := VStr "ops@x.com" ]};
          {[ "CVE_ID" := VStr "CVE-2023-4863" ]}]).
reflexivity.
Defined.

Lemma first_nonempty_single_falsy v : truthy v = false → first_nonempty [v] = VStr "".
Proof. intros Hv. simpl. by rewrite Hv. Qed.

Lemma truthy_not_empty_string v : truthy v = true → v ≠ VStr "".
Proof. by intros Hv ->. Qed.

(** C8.  On every list of records the later build sets [Remediation_Steps]
    to [Remediation_Links], and to the empty string when the links are empty,
    never looking at an existing [Remediation_Steps]; the earlier build falls
    back to the existing [Remediation_Steps] when the links are empty.  The
    two builds therefore give a record the same [Remediation_Steps] exactly
    when its links are non-empty or its existing steps are empty. *)
Theorem remediation_steps_builds_agree_iff h rows owner recs :
  records_of h rows = Some recs →
  ∃ earlier later,
    normalized_records Earlier.normalizeRows h rows owner = Some earlier ∧
    normalized_records Later.normalizeRows h rows owner = Some later ∧
    ∀ i r, recs !! i = Some r →
      ∃ e l, earlier !! i = Some e ∧ later !! i = Some l ∧
        l !! "Remediation_Steps"
          = Some (if truthy (field r "Remediation_Links")
                  then field r "Remediation_Links" else VStr "") ∧
        e !! "Remediation_Steps"
          = Some (first_nonempty [field r "Remediation_Links";
                                  field r "Remediation_Steps"]) ∧
        (e !! "Remediation_Steps" = l !! "Remediation_Steps" ↔
         truthy (field r "Remediation_Links") = true ∨
         truthy (field r "Remediation_Steps") = false).
Proof.
intros Hrecs. do 2 eexists.
split; [by apply Earlier_normalized_records|].
split; [by apply Later_normalized_records|].
intros i r Hr. exists (Earlier.normalized owner r), (Later.normalized owner r).
rewrite !list_lookup_fmap, Hr, Earlier_steps, Later_steps. simpl.
split_and!; try done.
destruct (truthy (field r "Remediation_Links")) eqn:Hlinks.
- split; [by left|done].
- destruct (truthy (field r "Remediation_Steps")) eqn:Hsteps.
  + split; [|by intros [|]].
    intros [= Heq]. by apply truthy_not_empty_string in Hsteps.
  + split; [by right|done].
Qed.

Lemma remediation_steps_builds_agree_iff_witness :
  ∃ earlier later,
    normalized_records Earlier.normalizeRows
      [Object {[ "Remediation_Steps" := VStr "patch it" ]}; Array [VRef 0]]
      (VRef 1) "" = Some earlier ∧
    normalized_records Later.normalizeRows
      [Object {[ "Remediation_Steps" := VStr "patch it" ]}; Array [VRef 0]]
      (VRef 1) "" = Some later ∧
    ∀ i r, [({[ "Remediation_Steps" := VStr "patch it" ]} : gmap string value)] !! i = Some r →
      ∃ e l, earlier !! i = Some e ∧ later !! i = Some l ∧
        l !! "Remediation_Steps"
          = Some (if truthy (field r "Remediation_Links")
                  then field r "Remediation_Links" else VStr "") ∧
        e !! "Remediation_Steps"
          = Some (first_nonempty [field r "Remediation_Links";
                                  field r "Remediation_Steps"]) ∧
        (e !! "Remediation_Steps" = l !! "Remediation_Steps" ↔
         truthy (field r "Remediation_Links") = true ∨
         truthy (field r "Remediation_Steps") = false).
Proof.
apply (remediation_steps_builds_agree_iff
         [Object {[ "Remediation_Steps" := VStr "patch it" ]}; Array [VRef 0]]
         (VRef 1) "" [{[ "Remediation_Steps" := VStr "patch it" ]}]).
reflexivity.
Defined.

(** The builds disagree on a record that has steps but no links. *)
Example remediation_steps_builds_disagree :
  normalized_field Earlier.normalizeRows
    [Object {[ "Remediation_Steps" := VStr "patch it" ]}; Array [VRef 0]]
    (VRef 1) "" 0 "Remediation_Steps" = Some (VStr "patch it") ∧
  normalized_field Later.normalizeRows
    [Object {[ "Remediation_Steps" := VStr "patch it" ]}; Array [VRef 0]]
    (VRef 1) "" 0 "Remediation_Steps" = Some (VStr "").
Proof. split; vm_compute; reflexivity. Qed.

(** Outside lists of records the normalizer can fail: a [null] element, or
    a [rows] value that is not an array. *)
Example normalizeRows_null_element_throws (b : variant) :
  normalizeRows_of b (VRef 0) "" [Array [VNull]] = Throw TypeError.
Proof. by destruct b. Qed.

Example normalizeRows_not_an_array_throws (b : variant) :
  normalizeRows_of b (VStr "none") "" [] = Throw TypeError.
Proof. by destruct b. Qed.

(** C9.  On every list of records and every default owner, both builds
    return normally; every cell that was in the heap, the input array and
    the input records included, is left as it was; the result is a new array
    of new objects, one per input record, and each new object carries
    every field of its input record other than [Description_Short],
    [Remediation_Steps] and [Owner_Suggested] unchanged. *)
Theorem normalizeRows_total_and_frame (b : variant) h rows owner recs :
  records_of h rows = Some recs →
  ∃ out h' locs,
    normalizeRows_of b rows owner h = Ok (out, h') ∧
    (∀ l c, h !! l = Some c → h' !! l = Some c) ∧
    records_of h' rows = Some recs ∧
    array_at h out = None ∧
    array_at h' out = Some (VRef <$> locs) ∧
    length locs = length recs ∧
    ∀ i r, recs !! i = Some r →
      ∃ l o, locs !! i = Some l ∧ h !! l = None ∧ h' !! l = Some (Object o) ∧
        ∀ k, k ∉ written_fields → o !! k = r !! k.
Proof.
intros Hrecs. do 3 eexists.
split; [by apply normalizeRows_of_records|].
assert (∀ l c, h !! l = Some c →
  (h ++ (Object ∘ normalized_of b owner <$> recs)
     ++ [Array (VRef <$> seq (length h) (length recs))]) !! l = Some c) as Hframe.
{ intros l c Hl. by apply lookup_app_l_Some. }
split_and!.
- done.
- unfold records_of in *.
  destruct (array_at h rows) as [elems|] eqn:Harr; [|done].
  rewrite (array_at_app _ _ _ _ Harr). simpl in *.
  apply mapM_Some. apply mapM_Some in Hrecs.
  eapply Forall2_impl; [done|]. intros v p Hv. by apply record_at_app.
- simpl. by rewrite lookup_ge_None_2 by lia.
- simpl. rewrite lookup_app_r by lia. rewrite lookup_app_r by (rewrite length_fmap; lia).
  rewrite length_fmap. by replace (_ - _ - _) with 0 by lia.
- by rewrite length_seq.
- intros i r Hr. pose proof (lookup_lt_Some _ _ _ Hr) as Hi.
  exists (length h + i), (normalized_of b owner r). split_and!.
  + by apply lookup_seq.
  + apply lookup_ge_None_2. lia.
  + rewrite lookup_app_r by lia. replace (length h + i - length h) with i by lia.
    rewrite lookup_app_l by (rewrite length_fmap; lia).
    by rewrite list_lookup_fmap, Hr.
  + intros k Hk. by apply normalized_of_other.
Qed.

Lemma normalizeRows_total_and_frame_witness :
  ∃ out h' locs,
    normalizeRows_of LaterBuild (VRef 2) "team@x.com"
      [Object {[ "CVE_ID" := VStr "CVE-2021-44228"; "AI_Brief" := VStr "x" ]};
       Object {[ "CVE_ID" := VStr "CVE-2023-4863" ]};
       Array [VRef 0; VRef 1]] = Ok (out, h') ∧
    (∀ l c,
       [Object {[ "CVE_ID" := VStr "CVE-2021-44228"; "AI_Brief" := VStr "x" ]};
        Object {[ "CVE_ID" := VStr "CVE-2023-4863" ]};
        Array [VRef 0; VRef 1]] !! l = Some c → h' !! l = Some c) ∧
    records_of h' (VRef 2)
      = Some [{[ "CVE_ID" := VStr "CVE-2021-44228"; "AI_Brief" := VStr "x" ]};
              {[ "CVE_ID" := VStr "CVE-2023-4863" ]}] ∧
    array_at
      [Object {[ "CVE_ID" := VStr "CVE-2021-44228"; "AI_Brief" := VStr "x" ]};
       Object {[ "CVE_ID" := VStr "CVE-2023-4863" ]};
       Array [VRef 0; VRef 1]] out = None ∧
    array_at h' out = Some (VRef <$> locs) ∧
    length locs = 2 ∧
    ∀ i r,
      [({[ "CVE_ID" := VStr "CVE-2021-44228"; "AI_Brief" := VStr "x" ]}
          : gmap string value);
       {[ "CVE_ID" := VStr "CVE-2023-4863" ]}] !! i = Some r →
      ∃ l o, locs !! i = Some l ∧
        [Object {[ "CVE_ID" := VStr "CVE-2021-44228"; "AI_Brief" := VStr "x" ]};
         Object {[ "CVE_ID" := VStr "CVE-2023-4863" ]};
         Array [VRef 0; VRef 1]] !! l = None ∧
        h' !! l = Some (Object o) ∧
        ∀ k, k ∉ written_fields → o !! k = r !! k.
Proof.
apply (normalizeRows_total_and_frame LaterBuild
         [Object {[ "CVE_ID" := VStr "CVE-2021-44228"; "AI_Brief" := VStr "x" ]};
          Object {[ "CVE_ID" := VStr "CVE-2023-4863" ]};
          Array [VRef 0; VRef 1]] (VRef 2) "team@x.com"
         [{[ "CVE_ID" := VStr "CVE-2021-44228"; "AI_Brief" := VStr "x" ]};
          {[ "CVE_ID" := VStr "CVE-2023-4863" ]}]).
reflexivity.
Defined.

End normalizer_claims.


(* ===================================================================== *)
(** * The handlers *)
(* ===================================================================== *)

Section handlers.

Ltac run_handler :=
  cbv [submit Earlier.enrich Later.enrich Earlier.onUploadCSV Later.onUploadCSV
       try_catch_finally mbind M_bind mret M_ret when throw return_ await
       alert setLoading setRows console_write fetch reset_file_input res_json
       on_heap];
  cbn [objects rows loading alerts console requests file_input fst snd].

Ltac step_world :=
  cbn [negb objects rows loading alerts console requests file_input fst snd
       default mbind result_bind get opt_get opt_index0].

Lemma identifiers_csv b content :
  identifiers b (UploadedCSV content)
  = csv_cves (parse_line (header_names content) <$> data_lines content).
Proof. unfold identifiers. by rewrite parseCSV_of_eq. Qed.

(** Splits on the build and the kind of submission and unfolds the handler. *)
Ltac start_submission b s :=
  destruct b, s;
  rewrite ?identifiers_csv in *; cbn [identifiers] in *;
  run_handler; rewrite ?Earlier_parseCSV_eq, ?Later_parseCSV_eq.

(** Once the identifiers are there and the endpoint is configured, the
    request goes out with exactly these identifiers, whatever comes back. *)
Lemma request_carries_identifiers (b : variant) (hst : host) (owner : string)
    (s : submission) (reply : result response) (w : world) :
  identifiers b s ≠ [] → API_missing hst = false →
  requests (submit b hst owner s reply w).2
  = requests w ++ [{| url := enrich_url hst; cves_sent := identifiers b s |}].
Proof.
intros Hids Hapi.
start_submission b s; rewrite (bool_decide_eq_false_2 _ Hids), Hapi.
all: destruct reply as [res|e]; [|by cbn].
all: destruct (ok res); [|by cbn].
all: destruct (json_body res) as [j|e]; [|by cbn].
all: step_world; destruct (build j (objects w)) as [data h1]; step_world.
all: destruct (get h1 data "rows") as [v|e]; [|by cbn].
all: step_world.
all: repeat case_match; simplify_eq/=; done.
Qed.

(** The identifiers taken from a CSV never repeat. *)
Lemma csv_identifiers_NoDup b content : NoDup (identifiers b (UploadedCSV content)).
Proof. rewrite identifiers_csv. apply Array_from_Set_NoDup. Qed.

Lemma normalizeRows_of_falsy b rows owner h :
  truthy rows = false →
  normalizeRows_of b rows owner h = Ok (VRef (S (length h)), h ++ [Array []; Array []]).
Proof.
intros Hrows.
destruct b; unfold normalizeRows_of, Earlier.normalizeRows, Later.normalizeRows,
  or_empty_array; rewrite Hrows; unfold alloc, map_method;
  rewrite (list_lookup_middle h [] _ (length h) eq_refl); cbn; unfold alloc;
  by rewrite length_app, Nat.add_1_r, <- app_assoc.
Qed.

Lemma build_members_no_key f k members : ∀ props h,
  k ∉ members.*1 → props !! k = None →
  (build_members f members props h).1 !! k = None.
Proof.
induction members as [|[k' j] members IH]; intros props h Hk Hprops; [done|].
simpl in *. apply not_elem_of_cons in Hk as [Hk Hrest].
destruct (f j h) as [v h1]. apply IH; [done|]. by rewrite lookup_insert_ne.
Qed.

Lemma build_object_no_key k members h :
  k ∉ members.*1 →
  ∃ props h1, build (JObj members) h = (VRef (length h1), h1 ++ [Object props]) ∧
              props !! k = None.
Proof.
intros Hk. simpl.
pose proof (build_members_no_key build k members ∅ h Hk (lookup_empty k)) as Hnone.
destruct (build_members build members ∅ h) as [props h1]. by exists props, h1.
Qed.

Lemma lookup_second_new (h : heap) (a c : cell) :
  (h ++ [a; c]) !! S (length h) = Some c.
Proof.
rewrite lookup_app_r by lia. by replace (S (length h) - length h) with 1 by lia.
Qed.

Lemma records_of_second_new (h : heap) (a : cell) :
  records_of (h ++ [a; Array []]) (VRef (S (length h))) = Some [].
Proof. unfold records_of. simpl. by rewrite lookup_second_new. Qed.

(** C1 (the code at the failing input).  Pasting the text of the
    specification's example, with the endpoint configured, sends three
    identifiers, one of them twice: the free-text path trims and drops blank
    lines but does not remove duplicates. *)
Theorem pasted_duplicates_reach_the_request (b : variant) (reply : result response) :
  requests
    (submit b demo_host ""
       (PastedText (unlines ["CVE-2021-44228"; "CVE-2021-44228"; ""; " CVE-2023-4863 "]))
       reply initial_world).2
  = [{| url := "https://api.example/enrich";
        cves_sent := ["CVE-2021-44228"; "CVE-2021-44228"; "CVE-2023-4863"] |}] ∧
  ¬ NoDup ["CVE-2021-44228"; "CVE-2021-44228"; "CVE-2023-4863"].
Proof.
split.
- by rewrite request_carries_identifiers.
- intros Hnodup. apply NoDup_cons in Hnodup as [Hnotin _].
  apply Hnotin, list_elem_of_here.
Qed.

(** The same text in a CSV column is sent without the duplicate. *)
Example uploaded_duplicates_are_removed (b : variant) :
  identifiers b
    (UploadedCSV (unlines ["CVE_ID"; "CVE-2021-44228"; "CVE-2021-44228"; "";
                           " CVE-2023-4863 "]))
  = ["CVE-2021-44228"; "CVE-2023-4863"].
Proof. by destruct b. Qed.

(** C7.  A submission whose identifier list is empty, or made while the
    endpoint is not configured, issues no request and shows exactly one
    message; the displayed rows stay as they were. *)
Theorem blocked_submission_one_message (b : variant) (hst : host) (owner : string)
    (s : submission) (reply : result response) (w : world) :
  identifiers b s = [] ∨ API_missing hst = true →
  requests (submit b hst owner s reply w).2 = requests w ∧
  (∃ msg, alerts (submit b hst owner s reply w).2 = alerts w ++ [msg]) ∧
  rows (submit b hst owner s reply w).2 = rows w ∧
  objects (submit b hst owner s reply w).2 = objects w.
Proof.
intros Hblocked.
start_submission b s;
  (destruct Hblocked as [->|Hapi];
   [|match goal with |- context [bool_decide ?P] => destruct (bool_decide P) end;
     [|rewrite Hapi]]);
  cbn; eauto.
Qed.

Lemma blocked_submission_one_message_witness :
  requests (submit LaterBuild demo_host "" (PastedText (unlines [""; "  "]))
              (Throw (Error "Failed to fetch")) initial_world).2
  = requests initial_world ∧
  (∃ msg,
     alerts (submit LaterBuild demo_host "" (PastedText (unlines [""; "  "]))
               (Throw (Error "Failed to fetch")) initial_world).2
     = alerts initial_world ++ [msg]) ∧
  rows (submit LaterBuild demo_host "" (PastedText (unlines [""; "  "]))
          (Throw (Error "Failed to fetch")) initial_world).2
  = rows initial_world ∧
  objects (submit LaterBuild demo_host "" (PastedText (unlines [""; "  "]))
             (Throw (Error "Failed to fetch")) initial_world).2
  = objects initial_world.
Proof.
apply (blocked_submission_one_message LaterBuild demo_host ""
         (PastedText (unlines [""; "  "])) (Throw (Error "Failed to fetch"))
         initial_world).
left. reflexivity.
Defined.

(** C3.  When the request of a submission is answered with a status outside
    200-299, the displayed rows and every heap cell are as before, and
    exactly one message is shown: the backend error with the status and the
    body text (the status text when the body is empty or unreadable). *)
Theorem non_ok_response_keeps_rows (b : variant) (hst : host) (owner : string)
    (s : submission) (res : response) (w : world) :
  identifiers b s ≠ [] → API_missing hst = false → ok res = false →
  rows (submit b hst owner s (Ok res) w).2 = rows w ∧
  objects (submit b hst owner s (Ok res) w).2 = objects w ∧
  alerts (submit b hst owner s (Ok res) w).2
    = alerts w ++ ["Backend error " +:+ pretty (status res) +:+ ": "
                   +:+ Str.or_else (match text res with Ok t => t | Throw _ => "" end)
                         (statusText res)] ∧
  requests (submit b hst owner s (Ok res) w).2
    = requests w ++ [{| url := enrich_url hst; cves_sent := identifiers b s |}].
Proof.
intros Hids Hapi Hok.
start_submission b s;
  rewrite (bool_decide_eq_false_2 _ Hids), Hapi, Hok; cbn; done.
Qed.

Lemma non_ok_response_keeps_rows_witness :
  rows (submit LaterBuild demo_host "" (PastedText "CVE-2021-44228")
          (Ok {| status := 500; statusText := "Internal Server Error";
                 text := Ok ""; json_body := Throw (Error "Unexpected end of JSON input") |})
          initial_world).2 = rows initial_world ∧
  objects (submit LaterBuild demo_host "" (PastedText "CVE-2021-44228")
          (Ok {| status := 500; statusText := "Internal Server Error";
                 text := Ok ""; json_body := Throw (Error "Unexpected end of JSON input") |})
          initial_world).2 = objects initial_world ∧
  alerts (submit LaterBuild demo_host "" (PastedText "CVE-2021-44228")
          (Ok {| status := 500; statusText := "Internal Server Error";
                 text := Ok ""; json_body := Throw (Error "Unexpected end of JSON input") |})
          initial_world).2
    = alerts initial_world ++ ["Backend error 500: Internal Server Error"] ∧
  requests (submit LaterBuild demo_host "" (PastedText "CVE-2021-44228")
          (Ok {| status := 500; statusText := "Internal Server Error";
                 text := Ok ""; json_body := Throw (Error "Unexpected end of JSON input") |})
          initial_world).2
    = requests initial_world
      ++ [{| url := "https://api.example/enrich"; cves_sent := ["CVE-2021-44228"] |}].
Proof.
apply (non_ok_response_keeps_rows LaterBuild demo_host "" (PastedText "CVE-2021-44228")
         {| status := 500; statusText := "Internal Server Error";
            text := Ok ""; json_body := Throw (Error "Unexpected end of JSON input") |}
         initial_world); [vm_compute; discriminate|reflexivity|reflexivity].
Defined.

(** C10.  Given [undefined] (a missing argument) or [null] for [rows], both
    builds of the normalizer return a new, empty array and touch nothing
    else; so when a successful response decodes to an object without a
    [rows] member, the submission completes normally, the displayed rows
    become an empty list, and no message is shown. *)
Theorem missing_rows_give_empty_result (b : variant) (hst : host) (owner : string)
    (s : submission) (res : response) (members : list (string * json)) (w : world)
    (rows0 : value) (h0 : heap) :
  rows0 = VUndefined ∨ rows0 = VNull →
  identifiers b s ≠ [] → API_missing hst = false → ok res = true →
  json_body res = Ok (JObj members) → "rows" ∉ members.*1 →
  (∃ out h',
     normalizeRows_of b rows0 owner h0 = Ok (out, h') ∧
     records_of h' out = Some [] ∧
     ∀ l c, h0 !! l = Some c → h' !! l = Some c) ∧
  (submit b hst owner s (Ok res) w).1 = Normal () ∧
  records_of (objects (submit b hst owner s (Ok res) w).2)
    (rows (submit b hst owner s (Ok res) w).2) = Some [] ∧
  alerts (submit b hst owner s (Ok res) w).2 = alerts w.
Proof.
intros Hrows0 Hids Hapi Hok Hjson Hno. split.
- do 2 eexists. split; [apply normalizeRows_of_falsy; by destruct Hrows0 as [->| ->]|].
  split; [apply records_of_second_new|].
  intros l c Hl. by apply lookup_app_l_Some.
- destruct (build_object_no_key "rows" members (objects w) Hno)
    as (props & h1 & Hbuild & Hprops).
  pose proof (normalizeRows_of_falsy EarlierBuild VUndefined owner
                (h1 ++ [Object props]) eq_refl) as HE.
  pose proof (normalizeRows_of_falsy LaterBuild VUndefined owner
                (h1 ++ [Object props]) eq_refl) as HL.
  cbn [normalizeRows_of] in HE, HL.
  start_submission b s;
    rewrite (bool_decide_eq_false_2 _ Hids), Hapi, Hok, Hjson; step_world;
    rewrite Hbuild; step_world;
    rewrite (list_lookup_middle h1 [] _ (length h1) eq_refl), Hprops; step_world;
    rewrite ?HE, ?HL; step_world.
  all: split; [done|]; split; [|done]; apply records_of_second_new.
Qed.

Lemma missing_rows_give_empty_result_witness :
  (∃ out h',
     normalizeRows_of LaterBuild VUndefined "" [Array []] = Ok (out, h') ∧
     records_of h' out = Some [] ∧
     ∀ l c, [Array []] !! l = Some c → h' !! l = Some c) ∧
  (submit LaterBuild demo_host "" (PastedText "CVE-2021-44228")
     (Ok {| status := 200; statusText := "OK"; text := Ok "{}";
            json_body := Ok (JObj [("count", JNum 0)]) |}) initial_world).1
  = Normal () ∧
  records_of
    (objects
       (submit LaterBuild demo_host "" (PastedText "CVE-2021-44228")
          (Ok {| status := 200; statusText := "OK"; text := Ok "{}";
                 json_body := Ok (JObj [("count", JNum 0)]) |}) initial_world).2)
    (rows
       (submit LaterBuild demo_host "" (PastedText "CVE-2021-44228")
          (Ok {| status := 200; statusText := "OK"; text := Ok "{}";
                 json_body := Ok (JObj [("count", JNum 0)]) |}) initial_world).2)
  = Some [] ∧
  alerts
    (submit LaterBuild demo_host "" (PastedText "CVE-2021-44228")
       (Ok {| status := 200; statusText := "OK"; text := Ok "{}";
              json_body := Ok (JObj [("count", JNum 0)]) |}) initial_world).2
  = alerts initial_world.
Proof.
apply (missing_rows_give_empty_result LaterBuild demo_host ""
         (PastedText "CVE-2021-44228")
         {| status := 200; statusText := "OK"; text := Ok "{}";
            json_body := Ok (JObj [("count", JNum 0)]) |}
         [("count", JNum 0)] initial_world VUndefined [Array []]).
- left. reflexivity.
- vm_compute. discriminate.
- reflexivity.
- reflexivity.
- reflexivity.
- simpl. intros Hin. apply list_elem_of_singleton in Hin. discriminate.
Defined.

(** A [rows] member that is [null] also ends in an empty result; a body
    that is [null] itself makes [data.rows] throw, which is reported like
    any other failure and leaves the rows as they were. *)
Example null_rows_member_gives_empty_result (b : variant) :
  let after :=
    (submit b demo_host "" (PastedText "CVE-2021-44228")
       (Ok {| status := 200; statusText := "OK"; text := Ok "";
              json_body := Ok (JObj [("rows", JNull)]) |}) initial_world).2 in
  records_of (objects after) (rows after) = Some [] ∧ alerts after = [].
Proof. by destruct b. Qed.

Example null_body_is_reported (b : variant) :
  let after :=
    (submit b demo_host "" (PastedText "CVE-2021-44228")
       (Ok {| status := 200; statusText := "OK"; text := Ok "";
              json_body := Ok JNull |}) initial_world).2 in
  rows after = rows initial_world ∧ alerts after = ["TypeError"].
Proof. by destruct b. Qed.

End handlers.

(* ===================================================================== *)
(** * More on identifiers and CSV records *)
(* ===================================================================== *)

Section pasted_text.
Import Str.

Lemma trimEnd_tail c s : trimEnd (String c s) = String c s → trimEnd s = s.
Proof.
simpl. destruct (trimEnd s) as [|d t] eqn:Hs.
- destruct (is_white_space c); [done|]. by intros [= <-].
- by intros [= <-].
Qed.

Lemma trimEnd_not_CR s :
  trimEnd (String "013" s) = String "013" s → s ≠ "".
Proof. by intros H ->. Qed.

Lemma length_trimEnd s : String.length (trimEnd s) ≤ String.length s.
Proof.
induction s as [|c s IH]; simpl; [done|].
destruct (trimEnd s); [destruct (is_white_space c)|]; simpl in *; lia.
Qed.

Lemma length_trimStart s : String.length (trimStart s) ≤ String.length s.
Proof.
induction s as [|c s IH]; simpl; [done|].
destruct (is_white_space c); simpl; lia.
Qed.

Lemma trimStart_fixed s :
  String.length (trimStart s) = String.length s → trimStart s = s.
Proof.
destruct s as [|c s]; simpl; [done|].
destruct (is_white_space c); [|done].
pose proof (length_trimStart s). lia.
Qed.

(** A string that [trim] leaves alone is left alone by both halves. *)
Lemma trim_fixed s : trim s = s → trimStart s = s ∧ trimEnd s = s.
Proof.
unfold trim. intros Hs.
assert (trimStart s = s) as Hstart.
{ apply trimStart_fixed. pose proof (length_trimStart s).
  pose proof (length_trimEnd (trimStart s)). rewrite Hs in *. lia. }
split; [done|]. by rewrite Hstart in Hs.
Qed.

Lemma clean_line_spec c :
  clean_line c = true ↔ c ≠ "" ∧ trim c = c ∧ has_char "010" c = false.
Proof.
unfold clean_line. rewrite !andb_true_iff, bool_decide_eq_true, negb_true_iff.
destruct c; simpl; by intuition.
Qed.

Lemma split_lines_no_LF line :
  has_char "010" line = false → split_lines line = [line].
Proof.
induction line as [|c line IH]; [done|]. simpl has_char.
intros [Hc Hline]%orb_false_elim. specialize (IH Hline). simpl. rewrite Hc.
destruct line as [|c' line']; [done|].
simpl in Hline. apply orb_false_elim in Hline as [Hc' _].
rewrite Hc', andb_false_r. by rewrite IH.
Qed.

Lemma split_lines_LF line rest :
  has_char "010" line = false → trimEnd line = line →
  split_lines (line +:+ LF +:+ rest) = line :: split_lines rest.
Proof.
induction line as [|c line IH]; [done|]. simpl has_char.
intros [Hc Hline]%orb_false_elim Hend.
specialize (IH Hline (trimEnd_tail _ _ Hend)).
change (String c line +:+ LF +:+ rest) with (String c (line +:+ LF +:+ rest)).
cbn [split_lines]. rewrite Hc.
destruct line as [|c' line'].
- simpl. destruct (Ascii.eqb_spec c "013") as [->|_]; [done|].
  done.
- change (String c' line' +:+ LF +:+ rest)
    with (String c' (line' +:+ LF +:+ rest)) in *.
  simpl in Hline. apply orb_false_elim in Hline as [Hc' _].
  rewrite Hc', andb_false_r. by rewrite IH.
Qed.

Lemma split_lines_CRLF line rest :
  has_char "010" line = false →
  split_lines (line +:+ CRLF +:+ rest) = line :: split_lines rest.
Proof.
induction line as [|c line IH]; [done|]. simpl has_char.
intros [Hc Hline]%orb_false_elim. specialize (IH Hline).
change (String c line +:+ CRLF +:+ rest) with (String c (line +:+ CRLF +:+ rest)).
cbn [split_lines]. rewrite Hc.
destruct line as [|c' line'].
- rewrite IH. simpl. by rewrite andb_false_r.
- change (String c' line' +:+ CRLF +:+ rest)
    with (String c' (line' +:+ CRLF +:+ rest)) in *.
  simpl in Hline. apply orb_false_elim in Hline as [Hc' _].
  rewrite Hc', andb_false_r. by rewrite IH.
Qed.

Lemma split_lines_unlines lines :
  lines ≠ [] → Forall (λ c, clean_line c = true) lines →
  split_lines (unlines lines) = lines ∧ split_lines (unlines_crlf lines) = lines.
Proof.
intros Hne Hclean. induction Hclean as [|c lines Hc Hclean IH]; [done|].
apply clean_line_spec in Hc as (_ & [_ Hend]%trim_fixed & HLF).
destruct lines as [|c' lines].
- simpl. by rewrite split_lines_no_LF.
- destruct IH as [IH1 IH2]; [done|].
  change (unlines (c :: c' :: lines)) with (c +:+ LF +:+ unlines (c' :: lines)).
  change (unlines_crlf (c :: c' :: lines))
    with (c +:+ CRLF +:+ unlines_crlf (c' :: lines)).
  by rewrite split_lines_LF, split_lines_CRLF, IH1, IH2.
Qed.

Lemma clean_lines_survive lines :
  Forall (λ c, clean_line c = true) lines →
  filter (λ l, Is_true (nonempty l)) (trim <$> lines) = lines.
Proof.
induction 1 as [|c lines Hc Hclean IH]; [done|].
apply clean_line_spec in Hc as (Hne & Htrim & _).
rewrite fmap_cons, Htrim, filter_cons_True by by apply nonempty_true.
by rewrite IH.
Qed.

(** X1.  Pasting clean identifiers one per line, with LF or CRLF line ends,
    sends exactly these identifiers, in the order and with the repetitions
    of the text. *)
Theorem pasted_lines_round_trip (ids : list string) :
  Forall (λ c, clean_line c = true) ids →
  text_cves (unlines ids) = ids ∧ text_cves (unlines_crlf ids) = ids.
Proof.
intros Hclean. destruct ids as [|c ids]; [done|].
unfold text_cves.
destruct (split_lines_unlines (c :: ids)) as [-> ->]; [done..|].
by rewrite clean_lines_survive.
Qed.

Lemma pasted_lines_round_trip_witness :
  text_cves (unlines ["CVE-2021-44228"; "CVE-2023-4863"; "CVE-2021-44228"])
  = ["CVE-2021-44228"; "CVE-2023-4863"; "CVE-2021-44228"] ∧
  text_cves (unlines_crlf ["CVE-2021-44228"; "CVE-2023-4863"; "CVE-2021-44228"])
  = ["CVE-2021-44228"; "CVE-2023-4863"; "CVE-2021-44228"].
Proof.
apply (pasted_lines_round_trip
         ["CVE-2021-44228"; "CVE-2023-4863"; "CVE-2021-44228"]).
repeat constructor.
Defined.

(** X2.  Whatever is submitted, every identifier produced is non-empty and
    has no white space left at either end. *)
Theorem identifiers_are_trimmed_and_nonempty (b : variant) (s : submission) (c : string) :
  c ∈ identifiers b s → c ≠ "" ∧ trim c = c.
Proof.
destruct s as [text|content]; simpl.
- unfold text_cves. rewrite list_elem_of_filter, nonempty_true, list_elem_of_fmap.
  intros [Hc (l & -> & _)]. split; [done|apply trim_idemp].
- rewrite parseCSV_of_eq, csv_cves_elem. intros [Hc (r & _ & ->)].
  split; [done|apply trim_idemp].
Qed.

Lemma identifiers_are_trimmed_and_nonempty_witness :
  "CVE-2023-4863" ≠ "" ∧ trim "CVE-2023-4863" = "CVE-2023-4863".
Proof.
apply (identifiers_are_trimmed_and_nonempty LaterBuild
         (PastedText (unlines ["  "; " CVE-2023-4863 "])) "CVE-2023-4863").
vm_compute. apply list_elem_of_here.
Defined.

End pasted_text.

Section csv_more.
Import Str.

Lemma foldl_Set_add_filter_le n : ∀ xs acc,
  length xs ≤ n →
  foldl Set_add acc xs = acc ++ Array_from_Set (filter (λ x, x ∉ acc) xs).
Proof.
unfold Array_from_Set.
induction n as [|n IH]; intros [|x xs] acc Hlen; simpl in *;
  try (by rewrite app_nil_r); [lia|].
unfold Set_add at 2. destruct (decide (x ∈ acc)) as [Hin|Hnot].
- rewrite filter_cons_False by (by intros ?). apply IH. lia.
- rewrite filter_cons_True by done. cbn [foldl].
  replace (Set_add [] x) with [x]
    by (unfold Set_add; by rewrite decide_False by apply not_elem_of_nil).
  rewrite (IH xs (acc ++ [x])) by lia.
  rewrite (IH (filter (λ y, y ∉ acc) xs) [x])
    by (pose proof (length_filter (λ y, y ∉ acc) xs); lia).
  rewrite <- app_assoc. simpl. do 3 f_equal.
  rewrite list_filter_filter. apply list_filter_iff. intros y.
  rewrite not_elem_of_app, list_elem_of_singleton. tauto.
Qed.

Lemma foldl_Set_add_filter xs acc :
  foldl Set_add acc xs = acc ++ Array_from_Set (filter (λ x, x ∉ acc) xs).
Proof. by apply (foldl_Set_add_filter_le (length xs)). Qed.

(** X3.  [Array.from(new Set(xs))] keeps every value at the place of its
    first occurrence: the first element stays first, and the rest is what
    the remaining elements other than it give. *)
Theorem Array_from_Set_first_occurrence (x : string) (xs : list string) :
  Array_from_Set (x :: xs) = x :: Array_from_Set (filter (λ y, y ≠ x) xs).
Proof.
unfold Array_from_Set at 1. cbn [foldl].
replace (Set_add [] x) with [x]
  by (unfold Set_add; by rewrite decide_False by apply not_elem_of_nil).
rewrite foldl_Set_add_filter. simpl. do 2 f_equal.
apply list_filter_iff. intros y. rewrite list_elem_of_singleton. tauto.
Qed.

Lemma foldl_Set_add_NoDup_app xs : ∀ acc,
  NoDup (acc ++ xs) → foldl Set_add acc xs = acc ++ xs.
Proof.
induction xs as [|x xs IH]; intros acc Hnodup; simpl; [by rewrite app_nil_r|].
assert (x ∉ acc) as Hx.
{ apply NoDup_app in Hnodup as (_ & Hdisj & _).
  intros Hin. apply (Hdisj x Hin). left. }
unfold Set_add. rewrite decide_False by done.
rewrite IH; rewrite <- app_assoc; done.
Qed.

Lemma Array_from_Set_NoDup_id xs : NoDup xs → Array_from_Set xs = xs.
Proof. intros. unfold Array_from_Set. by rewrite foldl_Set_add_NoDup_app. Qed.

Lemma has_char_false_split_comma s :
  has_char "," s = false → split_comma s = [s].
Proof.
induction s as [|c s IH]; [done|]. simpl.
intros [Hc Hs]%orb_false_elim. by rewrite Hc, IH.
Qed.

Lemma trimStart_app l x :
  trimStart l = l → l ≠ "" → trimStart (l +:+ x) = l +:+ x.
Proof.
destruct l as [|c l]; [done|]. simpl. intros Hl _.
destruct (is_white_space c); [|done].
pose proof (length_trimStart l) as Hlen. rewrite Hl in Hlen. simpl in Hlen. lia.
Qed.

Lemma trimEnd_app_keep x y :
  trimEnd y = y → y ≠ "" → trimEnd (x +:+ y) = x +:+ y.
Proof.
intros Hy Hne. induction x as [|c x IH]; [done|].
change (String c x +:+ y) with (String c (x +:+ y)). cbn [trimEnd]. rewrite IH.
destruct (x +:+ y) eqn:Hxy; [|done]. by destruct x.
Qed.

Lemma unlines_clean lines :
  lines ≠ [] → Forall (λ c, clean_line c = true) lines →
  unlines lines ≠ "" ∧ trim (unlines lines) = unlines lines.
Proof.
intros Hne Hclean.
assert (unlines lines ≠ "" ∧ trimEnd (unlines lines) = unlines lines) as [Hn Hend].
{ induction Hclean as [|c lines Hc Hclean IH]; [done|].
  apply clean_line_spec in Hc as (Hc & [_ Hcend]%trim_fixed & _).
  destruct lines as [|c' lines]; [done|].
  destruct IH as [IHn IHend]; [done|].
  change (unlines (c :: c' :: lines)) with (c +:+ LF +:+ unlines (c' :: lines)).
  split; [by destruct c|].
  apply trimEnd_app_keep.
  - by apply (trimEnd_app_keep LF).
  - done. }
split; [done|]. unfold trim.
destruct Hclean as [|c lines Hc Hclean]; [done|].
apply clean_line_spec in Hc as (Hc & [Hcstart _]%trim_fixed & _).
assert (trimStart (unlines (c :: lines)) = unlines (c :: lines)) as ->; [|done].
destruct lines as [|c' lines]; [done|].
change (unlines (c :: c' :: lines)) with (c +:+ LF +:+ unlines (c' :: lines)).
by apply trimStart_app.
Qed.

Lemma parse_line_single_column c :
  clean_line c = true → has_char "," c = false →
  parse_line ["CVE_ID"] c = {[ "CVE_ID" := c ]}.
Proof.
intros (_ & Htrim & _)%clean_line_spec Hcomma.
unfold parse_line. rewrite has_char_false_split_comma by done.
simpl. by rewrite Htrim.
Qed.

Lemma single_column_values ids :
  Forall (λ c, clean_line c = true ∧ has_char "," c = false) ids →
  filter (λ c, Is_true (nonempty c))
    ((λ r : gmap string string,
        trim match r !! "CVE_ID" with
             | Some c => or_else c ""
             | None => ""
             end) <$> (parse_line ["CVE_ID"] <$> ids)) = ids.
Proof.
induction 1 as [|c ids [Hc Hcomma] Hids IH]; [done|].
rewrite !fmap_cons, parse_line_single_column by done.
apply clean_line_spec in Hc as (Hne & Htrim & _).
rewrite lookup_singleton_eq, str_or_else_empty, Htrim.
rewrite filter_cons_True by by apply nonempty_true. by rewrite IH.
Qed.

(** X4.  A CSV whose only column is [CVE_ID] and whose lines are clean,
    comma-free, pairwise distinct identifiers sends exactly these
    identifiers, in the order of the file. *)
Theorem csv_column_round_trip (b : variant) (ids : list string) :
  Forall (λ c, clean_line c = true ∧ has_char "," c = false) ids →
  NoDup ids →
  identifiers b (UploadedCSV (unlines ("CVE_ID" :: ids))) = ids.
Proof.
intros Hids Hnodup.
assert (Forall (λ c, clean_line c = true) ("CVE_ID" :: ids)) as Hclean.
{ constructor; [done|]. eapply Forall_impl; [done|]. by intros c [? _]. }
destruct (unlines_clean ("CVE_ID" :: ids)) as [_ Htrim]; [done..|].
destruct (split_lines_unlines ("CVE_ID" :: ids)) as [Hsplit _]; [done..|].
unfold identifiers. rewrite parseCSV_of_eq. unfold header_names, data_lines.
rewrite Htrim, Hsplit. simpl head. simpl tail.
change (trim <$> split_comma (default "" (Some "CVE_ID"))) with ["CVE_ID"].
unfold csv_cves. rewrite single_column_values by done.
by apply Array_from_Set_NoDup_id.
Qed.

Lemma csv_column_round_trip_witness :
  identifiers LaterBuild
    (UploadedCSV (unlines ["CVE_ID"; "CVE-2023-4863"; "CVE-2021-44228"]))
  = ["CVE-2023-4863"; "CVE-2021-44228"].
Proof.
apply (csv_column_round_trip LaterBuild ["CVE-2023-4863"; "CVE-2021-44228"]).
- repeat constructor.
- apply (bool_decide_unpack _). vm_compute. exact I.
Defined.

Lemma forEach_assign_is_Some headers name : ∀ i cells obj,
  is_Some (forEach_assign headers i cells obj !! name) ↔
  is_Some (obj !! name) ∨ (name ∈ headers ∧ name ≠ "__proto__").
Proof.
induction headers as [|h headers IH]; intros i cells obj; simpl.
- rewrite elem_of_nil. tauto.
- rewrite IH, elem_of_cons. unfold assign. case_decide as Hh.
  + subst h. split; [|tauto]. intros [?|[? ?]]; tauto.
  + destruct (decide (h = name)) as [->|Hne].
    * rewrite lookup_insert_eq. split; [|by eauto]. intros _. right. tauto.
    * rewrite lookup_insert_ne by done. split; [|intros [?|[[?|?] ?]]; by eauto].
      intros [?|[? ?]]; tauto.
Qed.

(** X5.  Every record [parseCSV] returns has exactly the header names
    (other than [__proto__]) as its keys: cells beyond the header row leave
    no trace, and no header is ever missing. *)
Theorem parsed_record_keys (b : variant) (content : string) :
  ∃ records, parseCSV_of b content = Ok records ∧
    ∀ record name, record ∈ records →
      (is_Some (record !! name) ↔
       name ∈ header_names content ∧ name ≠ "__proto__").
Proof.
eexists. split; [apply parseCSV_of_eq|].
intros record name (line & -> & _)%list_elem_of_fmap.
unfold parse_line. rewrite forEach_assign_is_Some, lookup_empty.
split; [intros [[? [=]]|?]; done|by right].
Qed.

End csv_more.

(* ===================================================================== *)
(** * More on the normalizer *)
(* ===================================================================== *)

Section normalizer_more.

Lemma get_not_nullish h r k :
  nullish r = false → get h r k = Ok (opt_get h r k).
Proof. destruct r as [| | | | |l]; try done. simpl. by destruct (h !! l) as [[]|]. Qed.

Lemma get_nullish h r k : nullish r = true → get h r k = Throw TypeError.
Proof. by destruct r. Qed.

Lemma first_nonempty_truthy_or_empty candidates :
  truthy (first_nonempty candidates) = true ∨ first_nonempty candidates = VStr "".
Proof.
induction candidates as [|v candidates IH]; simpl; [by right|].
destruct (truthy v) eqn:Hv; [by left|done].
Qed.

Lemma normalize_row_of_nullish b owner r h :
  nullish r = true → normalize_row_of b owner r h = Throw TypeError.
Proof.
intros Hr. destruct b; simpl; unfold Earlier.normalize_row, Later.normalize_row;
  by rewrite !(get_nullish _ _ _ Hr).
Qed.

Lemma normalize_row_of_not_nullish b owner r h :
  nullish r = false →
  ∃ o, normalize_row_of b owner r h = Ok (VRef (length h), h ++ [Object o]) ∧
       Forall (filled o) written_fields.
Proof.
intros Hr. destruct b; simpl; unfold Earlier.normalize_row, Later.normalize_row;
  rewrite !(get_not_nullish _ _ _ Hr), !or_else_2, ?or_else_1;
  (eexists; split; [reflexivity|]);
  repeat constructor; eexists;
  (split; [by rewrite ?lookup_insert_ne by done; apply lookup_insert_eq|]);
  apply first_nonempty_truthy_or_empty.
Qed.

Lemma array_map_throws b owner elems : ∀ h,
  Exists (λ r, nullish r = true) elems →
  array_map (normalize_row_of b owner) elems h = Throw TypeError.
Proof.
induction elems as [|r elems IH]; intros h Hex; [by apply Exists_nil in Hex|].
simpl. destruct (nullish r) eqn:Hr.
- by rewrite normalize_row_of_nullish.
- destruct (normalize_row_of_not_nullish b owner r h Hr) as (o & -> & _).
  simpl. rewrite IH; [done|].
  apply Exists_cons in Hex as [Hex|Hex]; [congruence|done].
Qed.

Lemma array_map_returns b owner elems : ∀ h,
  Forall (λ r, nullish r = false) elems →
  ∃ os, array_map (normalize_row_of b owner) elems h
        = Ok (VRef <$> seq (length h) (length elems), h ++ (Object <$> os)) ∧
        length os = length elems ∧
        Forall (λ o, Forall (filled o) written_fields) os.
Proof.
induction elems as [|r elems IH]; intros h Hall.
- exists []. simpl. by rewrite app_nil_r.
- apply Forall_cons in Hall as [Hr Hall].
  destruct (normalize_row_of_not_nullish b owner r h Hr) as (o & Hrow & Ho).
  destruct (IH (h ++ [Object o]) Hall) as (os & Hmap & Hlen & Hos).
  exists (o :: os). simpl. rewrite Hrow. simpl. rewrite Hmap. simpl.
  rewrite length_app, Nat.add_1_r, <- app_assoc. simpl.
  split_and!; [done|by rewrite Hlen|by constructor].
Qed.

Lemma normalizeRows_of_unfold b rows owner h :
  normalizeRows_of b rows owner h
  = let '(arr, h0) := or_empty_array rows h in
    map_method (normalize_row_of b owner) arr h0.
Proof. by destruct b. Qed.

Lemma array_at_truthy h v elems : array_at h v = Some elems → truthy v = true.
Proof. by destruct v. Qed.

Lemma normalizeRows_of_bad b rows owner h :
  (truthy rows = true ∧ array_at h rows = None) ∨
  (∃ elems, array_at h rows = Some elems ∧ Exists (λ r, nullish r = true) elems) →
  normalizeRows_of b rows owner h = Throw TypeError.
Proof.
rewrite normalizeRows_of_unfold. intros [[Hrows Harr]|(elems & Harr & Hex)].
- unfold or_empty_array. rewrite Hrows. unfold map_method.
  destruct rows as [| | | | |l]; try done. simpl in Harr.
  by destruct (h !! l) as [[]|].
- pose proof (array_at_truthy _ _ _ Harr) as Hrows.
  unfold or_empty_array. rewrite Hrows.
  apply array_at_inv in Harr as (l & -> & Hl). simpl. rewrite Hl.
  by rewrite array_map_throws.
Qed.

Lemma normalizeRows_of_good b rows owner h :
  truthy rows = false ∨
  (∃ elems, array_at h rows = Some elems ∧ Forall (λ r, nullish r = false) elems) →
  ∃ out h', normalizeRows_of b rows owner h = Ok (out, h').
Proof.
intros [Hrows|(elems & Harr & Hall)].
- rewrite normalizeRows_of_falsy by done. eauto.
- rewrite normalizeRows_of_unfold.
  pose proof (array_at_truthy _ _ _ Harr) as Hrows.
  unfold or_empty_array. rewrite Hrows.
  apply array_at_inv in Harr as (l & -> & Hl). simpl. rewrite Hl.
  destruct (array_map_returns b owner elems h Hall) as (os & -> & _).
  simpl. eauto.
Qed.


(** X6.  The normalizer fails, with a [TypeError], in exactly two
    situations: [rows] is a non-empty (truthy) value that is not an array,
    or it is an array with an [undefined] or [null] element; in every other
    case it returns. *)
Theorem normalizeRows_fails_exactly_when (b : variant) (rows : value)
    (owner : string) (h : heap) :
  (normalizeRows_of b rows owner h = Throw TypeError ↔
   (truthy rows = true ∧ array_at h rows = None) ∨
   (∃ elems, array_at h rows = Some elems ∧
             Exists (λ r, nullish r = true) elems)) ∧
  ((∃ out h', normalizeRows_of b rows owner h = Ok (out, h')) ↔
   truthy rows = false ∨
   (∃ elems, array_at h rows = Some elems ∧
             Forall (λ r, nullish r = false) elems)).
Proof.
pose proof (normalizeRows_of_bad b rows owner h) as Hbad.
pose proof (normalizeRows_of_good b rows owner h) as Hgood.
assert (((truthy rows = true ∧ array_at h rows = None) ∨
         (∃ elems, array_at h rows = Some elems ∧
                   Exists (λ r, nullish r = true) elems)) ∨
        (truthy rows = false ∨
         (∃ elems, array_at h rows = Some elems ∧
                   Forall (λ r, nullish r = false) elems))) as [Hb|Hg].
{ destruct (truthy rows) eqn:Hrows; [|by right; left].
  destruct (array_at h rows) as [elems|] eqn:Harr; [|by left; left].
  destruct (decide (Forall (λ r, nullish r = false) elems)) as [Hall|Hsome].
  - right. right. eauto.
  - left. right. exists elems. split; [done|].
    apply not_Forall_Exists in Hsome; [|apply _].
    eapply Exists_impl; [done|]. intros r Hr. simpl in Hr. by destruct (nullish r). }
- specialize (Hbad Hb). split; split; try done.
  all: try (intros (out & h' & Hok); congruence).
  all: try (intros Hg; destruct (Hgood Hg) as (out & h' & Hok); congruence).
- destruct (Hgood Hg) as (out & h' & Hok). split; split; try done.
  all: try (intros Hthrow; congruence).
  all: try (intros Hb; specialize (Hbad Hb); congruence).
  all: eauto.
Qed.

Lemma normalizeRows_of_shape (b : variant) (rows : value) (owner : string)
    (h : heap) (out : value) (h' : heap) :
  normalizeRows_of b rows owner h = Ok (out, h') →
  (∀ l c, h !! l = Some c → h' !! l = Some c) ∧
  array_at h out = None ∧
  ∃ outs, array_at h' out = Some outs ∧
    length outs = length (default [] (array_at h rows)) ∧
    Forall (λ v, record_at h v = None ∧
                 ∃ o, record_at h' v = Some o ∧
                      Forall (filled o) written_fields) outs.
Proof.
intros Hrun. destruct (truthy rows) eqn:Hrows.
- rewrite normalizeRows_of_unfold in Hrun.
  unfold or_empty_array in Hrun. rewrite Hrows in Hrun.
  destruct (array_at h rows) as [elems|] eqn:Harr.
  + apply array_at_inv in Harr as (l & -> & Hl). simpl in Hrun. rewrite Hl in Hrun.
    destruct (decide (Forall (λ r, nullish r = false) elems)) as [Hall|Hsome].
    * destruct (array_map_returns b owner elems h Hall) as (os & Hmap & Hlen & Hos).
      rewrite Hmap in Hrun. simpl in Hrun. injection Hrun as <- <-.
      split_and!.
      -- intros l' c Hl'. by do 2 apply lookup_app_l_Some.
      -- simpl. rewrite lookup_ge_None_2; [done|]. rewrite length_app. lia.
      -- eexists. split_and!.
         ++ simpl. by rewrite list_lookup_middle.
         ++ by rewrite length_fmap, length_seq.
         ++ apply Forall_forall. intros v (n & -> & Hn)%list_elem_of_fmap.
            apply elem_of_seq in Hn as [Hn1 Hn2].
            split; [simpl; by rewrite lookup_ge_None_2|].
            destruct (os !! (n - length h)) as [o|] eqn:Ho;
              [|apply lookup_ge_None in Ho; lia].
            exists o. split.
            ** simpl. rewrite <- app_assoc, lookup_app_r by done.
               rewrite lookup_app_l by (rewrite length_fmap; lia).
               by rewrite list_lookup_fmap, Ho.
            ** eapply Forall_lookup_1 in Hos; done.
    * apply not_Forall_Exists in Hsome; [|apply _].
      rewrite array_map_throws in Hrun; [done|].
      eapply Exists_impl; [done|]. intros r Hr. simpl in Hr.
      by destruct (nullish r).
  + exfalso. unfold map_method in Hrun.
    destruct rows as [| | | | |l]; try done. simpl in Harr.
    by destruct (h !! l) as [[]|].
- rewrite normalizeRows_of_falsy in Hrun by done. injection Hrun as <- <-.
  assert (array_at h rows = None) as -> by by destruct rows.
  split_and!.
  + intros l c Hl. by apply lookup_app_l_Some.
  + simpl. by rewrite lookup_ge_None_2 by lia.
  + exists []. split_and!; [|done|done].
    simpl. by rewrite lookup_second_new.
Qed.

(** X7.  Whenever the normalizer returns, for any [rows] at all, it has
    only added cells to the heap; its result is a new array with one
    element per element of [rows] (none when [rows] is empty or missing);
    every element is a new object in which [Description_Short],
    [Remediation_Steps] and [Owner_Suggested] are present and hold a
    non-empty value or the empty string. *)
Theorem normalizeRows_result_shape (b : variant) (rows : value) (owner : string)
    (h : heap) (out : value) (h' : heap) :
  normalizeRows_of b rows owner h = Ok (out, h') →
  (∀ l c, h !! l = Some c → h' !! l = Some c) ∧
  array_at h out = None ∧
  ∃ outs, array_at h' out = Some outs ∧
    length outs = length (default [] (array_at h rows)) ∧
    Forall (λ v, record_at h v = None ∧
                 ∃ o, record_at h' v = Some o ∧
                      Forall (filled o) written_fields) outs.
Proof. apply normalizeRows_of_shape. Qed.

Lemma normalizeRows_result_shape_witness :
  (∀ l c, [Array [VStr "ab"; VNum 1]] !! l = Some c →
          [Array [VStr "ab"; VNum 1];
           Object (Later.normalized "" (index_props (chars "ab")));
           Object (Later.normalized "" ∅);
           Array [VRef 1; VRef 2]] !! l = Some c) ∧
  array_at [Array [VStr "ab"; VNum 1]] (VRef 3) = None ∧
  ∃ outs,
    array_at [Array [VStr "ab"; VNum 1];
              Object (Later.normalized "" (index_props (chars "ab")));
              Object (Later.normalized "" ∅);
              Array [VRef 1; VRef 2]] (VRef 3) = Some outs ∧
    length outs
      = length (default [] (array_at [Array [VStr "ab"; VNum 1]] (VRef 0))) ∧
    Forall (λ v, record_at [Array [VStr "ab"; VNum 1]] v = None ∧
                 ∃ o, record_at
                        [Array [VStr "ab"; VNum 1];
                         Object (Later.normalized "" (index_props (chars "ab")));
                         Object (Later.normalized "" ∅);
                         Array [VRef 1; VRef 2]] v = Some o ∧
                      Forall (filled o) written_fields) outs.
Proof.
apply (normalizeRows_result_shape LaterBuild (VRef 0) ""
         [Array [VStr "ab"; VNum 1]] (VRef 3)
         [Array [VStr "ab"; VNum 1];
          Object (Later.normalized "" (index_props (chars "ab")));
          Object (Later.normalized "" ∅);
          Array [VRef 1; VRef 2]]).
vm_compute. reflexivity.
Defined.

Lemma first_nonempty_fixed candidates :
  first_nonempty [first_nonempty candidates] = first_nonempty candidates.
Proof.
change (first_nonempty [first_nonempty candidates])
  with (if truthy (first_nonempty candidates)
        then first_nonempty candidates else VStr "").
by destruct (first_nonempty_truthy_or_empty candidates) as [-> | ->].
Qed.

Lemma first_nonempty_again v w :
  first_nonempty [v; first_nonempty [v; w]] = first_nonempty [v; w].
Proof.
change (first_nonempty [v; first_nonempty [v; w]])
  with (if truthy v then v else first_nonempty [first_nonempty [v; w]]).
rewrite first_nonempty_fixed. simpl. by destruct (truthy v).
Qed.

Lemma first_nonempty_owner_again o1 o2 v :
  first_nonempty [VStr o2; first_nonempty [VStr o1; v]]
  = first_nonempty [VStr (Str.or_else o2 o1); v].
Proof.
destruct o2 as [|c o2]; [|done].
change (first_nonempty [VStr ""; first_nonempty [VStr o1; v]])
  with (first_nonempty [first_nonempty [VStr o1; v]]).
by rewrite first_nonempty_fixed.
Qed.

Lemma field_insert_eq k x (o : gmap string value) : field (<[k := x]> o) k = x.
Proof. unfold field. by rewrite lookup_insert_eq. Qed.

Lemma field_insert_ne k k' x (o : gmap string value) :
  k ≠ k' → field (<[k := x]> o) k' = field o k'.
Proof. intros. unfold field. by rewrite lookup_insert_ne. Qed.

(** Normalizing a normalized record again changes nothing but the owner,
    which follows the later default when there is one. *)
Lemma normalized_of_twice b o1 o2 r :
  normalized_of b o2 (normalized_of b o1 r)
  = normalized_of b (Str.or_else o2 o1) r.
Proof.
destruct b; simpl; unfold Earlier.normalized, Later.normalized.
all: rewrite ?field_insert_eq.
all: repeat (rewrite field_insert_ne by done; rewrite ?field_insert_eq).
all: rewrite ?first_nonempty_again, ?first_nonempty_fixed,
       first_nonempty_owner_again.
all: apply map_eq; intros k.
all: destruct (decide (k = "Owner_Suggested")) as [->|?];
       [by rewrite !lookup_insert_eq|].
all: rewrite !(lookup_insert_ne _ "Owner_Suggested") by done.
all: destruct (decide (k = "Remediation_Steps")) as [->|?];
       [by rewrite !lookup_insert_eq|].
all: rewrite !(lookup_insert_ne _ "Remediation_Steps") by done.
all: destruct (decide (k = "Description_Short")) as [->|?];
       [by rewrite !lookup_insert_eq|].
all: by rewrite !lookup_insert_ne by done.
Qed.

(** X8.  Running the normalizer on its own output, with a second default
    owner, gives the records that one run on the original rows gives with
    the owner "second default, else first default": normalizing is
    idempotent apart from the owner overlay. *)
Theorem normalizeRows_twice (b : variant) (h : heap) (rows : value)
    (o1 o2 : string) (recs : list (gmap string value)) :
  records_of h rows = Some recs →
  ∃ out h' outs,
    normalizeRows_of b rows o1 h = Ok (out, h') ∧
    normalized_records (normalizeRows_of b) h' out o2 = Some outs ∧
    normalized_records (normalizeRows_of b) h rows (Str.or_else o2 o1) = Some outs.
Proof.
intros Hrecs. do 3 eexists.
split; [by apply normalizeRows_of_records|].
split; [|by apply normalized_of_records].
rewrite (normalized_of_records b _ _ o2 (normalized_of b o1 <$> recs)).
- rewrite <- list_fmap_compose. f_equal. apply list_fmap_ext.
  intros i r _. apply normalized_of_twice.
- destruct b; apply records_of_new_array.
Qed.

Lemma normalizeRows_twice_witness :
  ∃ out h' outs,
    normalizeRows_of LaterBuild (VRef 1) "first@x.com"
      [Object {[ "Brief_Description" := VStr "y" ]}; Array [VRef 0]] = Ok (out, h') ∧
    normalized_records (normalizeRows_of LaterBuild) h' out "" = Some outs ∧
    normalized_records (normalizeRows_of LaterBuild)
      [Object {[ "Brief_Description" := VStr "y" ]}; Array [VRef 0]] (VRef 1)
      (Str.or_else "" "first@x.com") = Some outs.
Proof.
apply (normalizeRows_twice LaterBuild
         [Object {[ "Brief_Description" := VStr "y" ]}; Array [VRef 0]] (VRef 1)
         "first@x.com" "" [{[ "Brief_Description" := VStr "y" ]}]).
reflexivity.
Defined.

End normalizer_more.

(* ===================================================================== *)
(** * More on the handlers *)
(* ===================================================================== *)

Section handlers_more.

(** Induction on decoded JSON, through arrays and objects. *)
Lemma json_induction (P : json → Prop) :
  P JNull → (∀ b, P (JBool b)) → (∀ n, P (JNum n)) → (∀ s, P (JStr s)) →
  (∀ items, Forall P items → P (JArr items)) →
  (∀ members, Forall (λ m, P m.2) members → P (JObj members)) →
  ∀ j, P j.
Proof.
intros HNull HBool HNum HStr HArr HObj. fix IH 1.
intros [|b|n|s|items|members]; [done..| |].
- apply HArr. induction items as [|j items IHitems]; constructor; [apply IH|done].
- apply HObj. induction members as [|[k j] members IHmembers]; constructor;
    [apply IH|done].
Qed.

Lemma build_items_extends f items :
  Forall (λ j, ∀ h, ∃ ext, (f j h).2 = h ++ ext) items →
  ∀ h, ∃ ext, (build_items f items h).2 = h ++ ext.
Proof.
induction 1 as [|j items Hj Hitems IH]; intros h; simpl.
- exists []. by rewrite app_nil_r.
- destruct (Hj h) as [ext1 H1]. destruct (f j h) as [v h1]. simpl in H1. subst h1.
  destruct (IH (h ++ ext1)) as [ext2 H2].
  destruct (build_items f items (h ++ ext1)) as [vs h2]. simpl in *. subst h2.
  exists (ext1 ++ ext2). by rewrite app_assoc.
Qed.

Lemma build_members_extends f members :
  Forall (λ m, ∀ h, ∃ ext, (f m.2 h).2 = h ++ ext) members →
  ∀ props h, ∃ ext, (build_members f members props h).2 = h ++ ext.
Proof.
induction 1 as [|[k j] members Hj Hmembers IH]; intros props h; simpl.
- exists []. by rewrite app_nil_r.
- simpl in Hj. destruct (Hj h) as [ext1 H1].
  destruct (f j h) as [v h1]. simpl in H1. subst h1.
  destruct (IH (<[k:=v]> props) (h ++ ext1)) as [ext2 H2].
  exists (ext1 ++ ext2). by rewrite H2, app_assoc.
Qed.

(** Decoding a body only adds cells to the heap. *)
Lemma build_extends j : ∀ h, ∃ ext, (build j h).2 = h ++ ext.
Proof.
induction j as [|b|n|s|items IH|members IH] using json_induction; intros h;
  try (exists []; simpl; by rewrite app_nil_r).
- simpl. destruct (build_items_extends build items IH h) as [ext Hext].
  destruct (build_items build items h) as [vs h1]. simpl in *. subst h1.
  eexists. by rewrite <- app_assoc.
- simpl. destruct (build_members_extends build members IH ∅ h) as [ext Hext].
  destruct (build_members build members ∅ h) as [props h1]. simpl in *. subst h1.
  eexists. by rewrite <- app_assoc.
Qed.

Ltac run_handler :=
  cbv [submit Earlier.enrich Later.enrich Earlier.onUploadCSV Later.onUploadCSV
       try_catch_finally mbind M_bind mret M_ret when throw return_ await
       alert setLoading setRows console_write fetch reset_file_input res_json
       on_heap];
  cbn [objects rows loading alerts console requests file_input fst snd].

Ltac step_world :=
  cbn [negb objects rows loading alerts console requests file_input fst snd
       default mbind result_bind get opt_get opt_index0].

Ltac start_submission b s :=
  destruct b, s;
  rewrite ?identifiers_csv in *; cbn [identifiers] in *;
  run_handler; rewrite ?Earlier_parseCSV_eq, ?Later_parseCSV_eq;
  change Earlier.normalizeRows with (normalizeRows_of EarlierBuild);
  change Later.normalizeRows with (normalizeRows_of LaterBuild).

Lemma array_at_prefix_None h ext v :
  array_at (h ++ ext) v = None → array_at h v = None.
Proof.
intros Hnone. destruct (array_at h v) as [elems|] eqn:Harr; [|done].
by rewrite (array_at_app _ ext _ _ Harr) in Hnone.
Qed.

Lemma records_of_app h ext v recs :
  records_of h v = Some recs → records_of (h ++ ext) v = Some recs.
Proof.
unfold records_of. destruct (array_at h v) as [elems|] eqn:Harr; [|done].
rewrite (array_at_app _ _ _ _ Harr). simpl. intros Hrecs.
apply mapM_Some. apply mapM_Some in Hrecs.
eapply Forall2_impl; [done|]. intros x p Hx. by apply record_at_app.
Qed.

(** What a returning normalizer leaves behind, in the form the handlers
    need: the old heap is a prefix-preserved part of the new one, and the
    result is a new array of objects. *)
Lemma normalizeRows_of_new_records b rows owner h out h' :
  normalizeRows_of b rows owner h = Ok (out, h') →
  (∀ l c, h !! l = Some c → h' !! l = Some c) ∧
  array_at h out = None ∧ is_Some (records_of h' out).
Proof.
intros (Hframe & Hnew & outs & Hout & _ & Hrecs)%normalizeRows_of_shape.
split_and!; [done..|]. unfold records_of. rewrite Hout. simpl.
apply mapM_is_Some. eapply Forall_impl; [done|].
intros v (_ & o & Ho & _). simpl. rewrite Ho. by eexists.
Qed.

(** What a heap holds as an array of objects, a larger heap holds too. *)
Lemma records_of_frame (h h' : heap) (v : value) (recs : list (gmap string value)) :
  (∀ (l : loc) c, h !! l = Some c → h' !! l = Some c) →
  records_of h v = Some recs → records_of h' v = Some recs.
Proof.
intros Hframe. unfold records_of.
destruct (array_at h v) as [elems|] eqn:Harr; [|done].
apply array_at_inv in Harr as (l & -> & Hcell).
unfold array_at. rewrite (Hframe _ _ Hcell). cbn [mbind option_bind].
intros Hrecs. apply mapM_Some. apply mapM_Some in Hrecs.
eapply Forall2_impl; [done|]. intros v p Hv.
apply record_at_inv in Hv as (l' & -> & Hcell').
unfold record_at. by rewrite (Hframe _ _ Hcell').
Qed.

(** Every path of a submission, in one statement. *)
Lemma submit_cases (b : variant) (hst : host) (owner : string) (s : submission)
    (reply : result response) (w : world) :
  loading (submit b hst owner s reply w).2
    = match s with PastedText _ => false | UploadedCSV _ => loading w end ∧
  file_input (submit b hst owner s reply w).2
    = match s with
      | PastedText _ => file_input w
      | UploadedCSV _ => match file_input w with Some _ => Some "" | None => None end
      end ∧
  (∀ l c, objects w !! l = Some c →
          objects (submit b hst owner s reply w).2 !! l = Some c) ∧
  (((identifiers b s = [] ∨ API_missing hst = true) ∧
    (submit b hst owner s reply w).1 = Returned ∧
    requests (submit b hst owner s reply w).2 = requests w ∧
    rows (submit b hst owner s reply w).2 = rows w ∧
    ∃ msg, alerts (submit b hst owner s reply w).2 = alerts w ++ [msg])
   ∨
   (identifiers b s ≠ [] ∧ API_missing hst = false ∧
    (submit b hst owner s reply w).1 = Normal () ∧
    requests (submit b hst owner s reply w).2
      = requests w ++ [{| url := enrich_url hst; cves_sent := identifiers b s |}] ∧
    ((rows (submit b hst owner s reply w).2 = rows w ∧
      ∃ msg, alerts (submit b hst owner s reply w).2 = alerts w ++ [msg])
     ∨
     (alerts (submit b hst owner s reply w).2 = alerts w ∧
      array_at (objects w) (rows (submit b hst owner s reply w).2) = None ∧
      is_Some (records_of (objects (submit b hst owner s reply w).2)
                 (rows (submit b hst owner s reply w).2)))))).
Proof.
start_submission b s.
all: match goal with |- context [bool_decide ?P] =>
       destruct (decide P) as [Hempty|Hids];
       [rewrite (bool_decide_eq_true_2 _ Hempty)
       |rewrite (bool_decide_eq_false_2 _ Hids)] end.
all: try (cbn; split_and!; try done; left; split_and!; eauto; fail).
all: destruct (API_missing hst) eqn:Hapi.
all: try (cbn; split_and!; try done; left; split_and!; eauto; fail).
all: destruct reply as [res|e].
all: try (cbn; split_and!; try done; right; split_and!; try done; left; eauto; fail).
all: destruct (ok res) eqn:Hok.
all: try (cbn; split_and!; try done; right; split_and!; try done; left; eauto; fail).
all: destruct (json_body res) as [j|e].
all: try (cbn; split_and!; try done; right; split_and!; try done; left; eauto; fail).
all: step_world.
all: destruct (build_extends j (objects w)) as [ext Hext].
all: destruct (build j (objects w)) as [data h1]; simpl in Hext; subst h1; step_world.
all: destruct (get (objects w ++ ext) data "rows") as [v|e].
all: try (cbn; split_and!; try done; [intros; by apply lookup_app_l_Some|];
          right; split_and!; try done; left; eauto; fail).
all: step_world.
all: destruct (normalizeRows_of _ v owner (objects w ++ ext)) as [[out h2]|e] eqn:Hnorm.
all: try (cbn; split_and!; try done; [intros; by apply lookup_app_l_Some|];
          right; split_and!; try done; left; eauto; fail).
all: apply normalizeRows_of_new_records in Hnorm as (Hframe & Hnew & Hrecs).
all: cbn; split_and!; try done; [intros; by apply Hframe, lookup_app_l_Some|].
all: right; split_and!; try done; right; split_and!; try done.
all: by eapply array_at_prefix_None.
Qed.

(** X9.  A submission never ends in an uncaught exception: whatever the
    text or file, the configuration and the reply, the handler completes or
    returns early. *)
Theorem submission_never_rejects (b : variant) (hst : host) (owner : string)
    (s : submission) (reply : result response) (w : world) (e : exn) :
  (submit b hst owner s reply w).1 ≠ Thrown e.
Proof.
destruct (submit_cases b hst owner s reply w) as (_ & _ & _ & [H|H]).
- destruct H as (_ & -> & _). done.
- destruct H as (_ & _ & -> & _). done.
Qed.

(** X10.  A submission shows at most one message.  When it shows one, the
    displayed rows are the ones shown before; when it shows none, one
    request went out and the rows were replaced by a new array of
    objects. *)
Theorem silent_exactly_on_success (b : variant) (hst : host) (owner : string)
    (s : submission) (reply : result response) (w : world) :
  ((∃ msg, alerts (submit b hst owner s reply w).2 = alerts w ++ [msg]) ∧
   rows (submit b hst owner s reply w).2 = rows w)
  ∨
  (alerts (submit b hst owner s reply w).2 = alerts w ∧
   requests (submit b hst owner s reply w).2
     = requests w ++ [{| url := enrich_url hst; cves_sent := identifiers b s |}] ∧
   array_at (objects w) (rows (submit b hst owner s reply w).2) = None ∧
   is_Some (records_of (objects (submit b hst owner s reply w).2)
              (rows (submit b hst owner s reply w).2))).
Proof.
destruct (submit_cases b hst owner s reply w) as (_ & _ & _ & [H|H]).
- left. destruct H as (_ & _ & _ & Hrows & Hmsg). done.
- destruct H as (_ & _ & _ & Hreq & [[Hrows Hmsg]|(Halerts & Hnew & Hrecs)]).
  + by left.
  + by right.
Qed.

(** X11.  Each request carries every identifier of the submission in one
    batch, and there is exactly one request, whatever the endpoint
    answers: nothing is chunked and nothing is retried. *)
Theorem one_request_per_submission (b : variant) (hst : host) (owner : string)
    (s : submission) (reply : result response) (w : world) :
  identifiers b s ≠ [] → API_missing hst = false →
  requests (submit b hst owner s reply w).2
  = requests w ++ [{| url := enrich_url hst; cves_sent := identifiers b s |}].
Proof. apply request_carries_identifiers. Qed.

Lemma one_request_per_submission_witness :
  requests
    (submit EarlierBuild demo_host "" (PastedText (unlines ["CVE-1"; "CVE-2"]))
       (Throw (Error "Failed to fetch")) initial_world).2
  = requests initial_world
    ++ [{| url := enrich_url demo_host;
           cves_sent := identifiers EarlierBuild (PastedText (unlines ["CVE-1"; "CVE-2"])) |}].
Proof.
apply (one_request_per_submission EarlierBuild demo_host ""
         (PastedText (unlines ["CVE-1"; "CVE-2"]))
         (Throw (Error "Failed to fetch")) initial_world).
- vm_compute. discriminate.
- reflexivity.
Defined.

(** X12.  A submission never changes a cell that is already in the heap:
    rows shown earlier, and anything else that refers to them, stay intact
    whatever happens. *)
Theorem submission_never_mutates_heap (b : variant) (hst : host) (owner : string)
    (s : submission) (reply : result response) (w : world) (l : loc) (c : cell) :
  objects w !! l = Some c →
  objects (submit b hst owner s reply w).2 !! l = Some c.
Proof.
destruct (submit_cases b hst owner s reply w) as (_ & _ & Hframe & _).
apply Hframe.
Qed.

Lemma submission_never_mutates_heap_witness :
  objects
    (submit LaterBuild demo_host "" (PastedText "CVE-2021-44228")
       (Ok {| status := 200; statusText := "OK"; text := Ok "";
              json_body := Ok (JObj [("rows", JArr [JObj [("CVE_ID", JStr "CVE-2021-44228")]])]) |})
       initial_world).2 !! 0 = Some (Array []).
Proof.
apply (submission_never_mutates_heap LaterBuild demo_host ""
         (PastedText "CVE-2021-44228")
         (Ok {| status := 200; statusText := "OK"; text := Ok "";
                json_body := Ok (JObj [("rows", JArr [JObj [("CVE_ID", JStr "CVE-2021-44228")]])]) |})
         initial_world 0 (Array [])).
reflexivity.
Defined.

(** X13.  If the displayed rows are an array of objects, they still are
    after any submission: the table never comes to hold [null], a
    primitive, or something that is not an array. *)
Theorem displayed_rows_stay_records (b : variant) (hst : host) (owner : string)
    (s : submission) (reply : result response) (w : world) :
  is_Some (records_of (objects w) (rows w)) →
  is_Some (records_of (objects (submit b hst owner s reply w).2)
             (rows (submit b hst owner s reply w).2)).
Proof.
intros [recs Hrecs].
destruct (submit_cases b hst owner s reply w) as (_ & _ & Hframe & Hcases).
pose proof (records_of_frame _ _ _ _ Hframe Hrecs) as Hkept.
destruct Hcases as [H|H].
- destruct H as (_ & _ & _ & -> & _). by eexists.
- destruct H as (_ & _ & _ & _ & [[-> _]|(_ & _ & Hnew)]); [by eexists|done].
Qed.

Lemma displayed_rows_stay_records_witness :
  is_Some
    (records_of
       (objects (submit LaterBuild demo_host "" (PastedText "CVE-2021-44228")
                   (Ok {| status := 200; statusText := "OK"; text := Ok "";
                          json_body := Ok (JObj [("rows", JArr [JStr "x"])]) |})
                   initial_world).2)
       (rows (submit LaterBuild demo_host "" (PastedText "CVE-2021-44228")
                (Ok {| status := 200; statusText := "OK"; text := Ok "";
                       json_body := Ok (JObj [("rows", JArr [JStr "x"])]) |})
                initial_world).2)).
Proof.
apply (displayed_rows_stay_records LaterBuild demo_host ""
         (PastedText "CVE-2021-44228")
         (Ok {| status := 200; statusText := "OK"; text := Ok "";
                json_body := Ok (JObj [("rows", JArr [JStr "x"])]) |})
         initial_world).
by eexists.
Defined.

(** X14.  The cleanup always runs: after "Enrich CVEs" the loading flag is
    off, whatever happened; after an upload the file input is emptied (so
    the same file can be chosen again) and the loading flag is not
    touched. *)
Theorem cleanup_always_runs (b : variant) (hst : host) (owner : string)
    (s : submission) (reply : result response) (w : world) :
  match s with
  | PastedText _ =>
      loading (submit b hst owner s reply w).2 = false ∧
      file_input (submit b hst owner s reply w).2 = file_input w
  | UploadedCSV _ =>
      loading (submit b hst owner s reply w).2 = loading w ∧
      file_input (submit b hst owner s reply w).2
        = match file_input w with Some _ => Some "" | None => None end
  end.
Proof.
destruct (submit_cases b hst owner s reply w) as (Hloading & Hfile & _).
by destruct s.
Qed.

(** X15.  A failed transport is reported once, with the error's own message
    and, when that is empty, with the handler's fallback text; the rows and
    the heap stay as they were.  This covers a rejected [fetch] and a body
    of a successful response that cannot be decoded. *)
Theorem transport_failure_is_reported (b : variant) (hst : host) (owner : string)
    (s : submission) (reply : result response) (e : exn) (w : world) :
  identifiers b s ≠ [] → API_missing hst = false →
  reply = Throw e ∨
  (∃ res, reply = Ok res ∧ ok res = true ∧ json_body res = Throw e) →
  alerts (submit b hst owner s reply w).2
    = alerts w ++ [Str.or_else (message hst e)
                     match s with
                     | PastedText _ => "Failed to enrich CVEs"
                     | UploadedCSV _ => "Failed to enrich CVEs from CSV"
                     end] ∧
  console (submit b hst owner s reply w).2 = console w ++ [LogError e] ∧
  rows (submit b hst owner s reply w).2 = rows w ∧
  objects (submit b hst owner s reply w).2 = objects w.
Proof.
intros Hids Hapi [->|(res & -> & Hok & Hjson)].
- start_submission b s; rewrite (bool_decide_eq_false_2 _ Hids), Hapi; by cbn.
- start_submission b s;
    rewrite (bool_decide_eq_false_2 _ Hids), Hapi, Hok, Hjson; by cbn.
Qed.

Lemma transport_failure_is_reported_witness :
  alerts (submit LaterBuild demo_host "" (UploadedCSV (unlines ["CVE_ID"; "CVE-1"]))
            (Throw (Error "")) initial_world).2
    = alerts initial_world
      ++ [Str.or_else (message demo_host (Error "")) "Failed to enrich CVEs from CSV"] ∧
  console (submit LaterBuild demo_host "" (UploadedCSV (unlines ["CVE_ID"; "CVE-1"]))
             (Throw (Error "")) initial_world).2
    = console initial_world ++ [LogError (Error "")] ∧
  rows (submit LaterBuild demo_host "" (UploadedCSV (unlines ["CVE_ID"; "CVE-1"]))
          (Throw (Error "")) initial_world).2 = rows initial_world ∧
  objects (submit LaterBuild demo_host "" (UploadedCSV (unlines ["CVE_ID"; "CVE-1"]))
             (Throw (Error "")) initial_world).2 = objects initial_world.
Proof.
apply (transport_failure_is_reported LaterBuild demo_host ""
         (UploadedCSV (unlines ["CVE_ID"; "CVE-1"])) (Throw (Error "")) (Error "")
         initial_world).
- vm_compute. discriminate.
- reflexivity.
- left. reflexivity.
Defined.

(** X16.  With no file chosen the upload handler does nothing at all; with a
    file that cannot be read it sends nothing, reports the failure once,
    keeps the rows and empties the file input. *)
Theorem upload_without_readable_file (b : variant) (hst : host) (owner : string)
    (reply : result response) (w : world) (e : exn) :
  onUploadCSV_of b hst owner None reply w = (Returned, w) ∧
  requests (onUploadCSV_of b hst owner (Some (Throw e)) reply w).2 = requests w ∧
  rows (onUploadCSV_of b hst owner (Some (Throw e)) reply w).2 = rows w ∧
  alerts (onUploadCSV_of b hst owner (Some (Throw e)) reply w).2
    = alerts w ++ [Str.or_else (message hst e) "Failed to enrich CVEs from CSV"] ∧
  file_input (onUploadCSV_of b hst owner (Some (Throw e)) reply w).2
    = match file_input w with Some _ => Some "" | None => None end.
Proof. by destruct b. Qed.

(** X17.  When the endpoint answers with success and the decoded body has a
    [rows] array of objects, the submission completes, shows no message,
    and the displayed rows become exactly the normalized records, in the
    order of the response, replacing whatever was shown. *)
Theorem successful_submission_shows_normalized_rows (b : variant) (hst : host)
    (owner : string) (s : submission) (res : response) (body : json) (w : world)
    (data : value) (h1 : heap) (rowsv : value) (recs : list (gmap string value)) :
  identifiers b s ≠ [] → API_missing hst = false → ok res = true →
  json_body res = Ok body → build body (objects w) = (data, h1) →
  get h1 data "rows" = Ok rowsv → records_of h1 rowsv = Some recs →
  (submit b hst owner s (Ok res) w).1 = Normal () ∧
  records_of (objects (submit b hst owner s (Ok res) w).2)
    (rows (submit b hst owner s (Ok res) w).2)
    = Some (normalized_of b owner <$> recs) ∧
  alerts (submit b hst owner s (Ok res) w).2 = alerts w.
Proof.
intros Hids Hapi Hok Hjson Hbuild Hget Hrecs.
pose proof (normalizeRows_of_records EarlierBuild h1 rowsv owner recs Hrecs) as HE.
pose proof (normalizeRows_of_records LaterBuild h1 rowsv owner recs Hrecs) as HL.
start_submission b s;
  rewrite (bool_decide_eq_false_2 _ Hids), Hapi, Hok, Hjson; step_world;
  rewrite Hbuild; step_world; rewrite Hget; step_world;
  rewrite ?HE, ?HL; step_world.
all: split; [done|]; split; [|done].
1,2: apply (records_of_new_array (Earlier.normalized owner)).
all: apply (records_of_new_array (Later.normalized owner)).
Qed.

Lemma successful_submission_shows_normalized_rows_witness :
  (submit LaterBuild demo_host "team-a" (PastedText "CVE-2021-44228")
     (Ok {| status := 200; statusText := "OK"; text := Ok "";
            json_body := Ok (JObj [("rows", JArr [JObj [("CVE_ID", JStr "CVE-2021-44228")]])]) |})
     initial_world).1 = Normal () ∧
  records_of
    (objects (submit LaterBuild demo_host "team-a" (PastedText "CVE-2021-44228")
       (Ok {| status := 200; statusText := "OK"; text := Ok "";
              json_body := Ok (JObj [("rows", JArr [JObj [("CVE_ID", JStr "CVE-2021-44228")]])]) |})
       initial_world).2)
    (rows (submit LaterBuild demo_host "team-a" (PastedText "CVE-2021-44228")
       (Ok {| status := 200; statusText := "OK"; text := Ok "";
              json_body := Ok (JObj [("rows", JArr [JObj [("CVE_ID", JStr "CVE-2021-44228")]])]) |})
       initial_world).2)
  = Some (normalized_of LaterBuild "team-a"
            <$> [{["CVE_ID" := VStr "CVE-2021-44228"]}]) ∧
  alerts (submit LaterBuild demo_host "team-a" (PastedText "CVE-2021-44228")
     (Ok {| status := 200; statusText := "OK"; text := Ok "";
            json_body := Ok (JObj [("rows", JArr [JObj [("CVE_ID", JStr "CVE-2021-44228")]])]) |})
     initial_world).2 = alerts initial_world.
Proof.
eapply (successful_submission_shows_normalized_rows LaterBuild demo_host "team-a"
          (PastedText "CVE-2021-44228") _
          (JObj [("rows", JArr [JObj [("CVE_ID", JStr "CVE-2021-44228")]])])
          initial_world).
- vm_compute. discriminate.
- reflexivity.
- reflexivity.
- reflexivity.
- vm_compute. reflexivity.
- vm_compute. reflexivity.
- vm_compute. reflexivity.
Defined.

(** X18.  "Clear" followed by "Enrich CVEs" sends nothing: the text is
    empty, so the click is answered with the request to paste an
    identifier, and the table stays empty. *)
Theorem clear_then_enrich_is_blocked (b : variant) (hst : host)
    (reply : result response) (p : page) :
  loading (pg_world p) = false →
  requests (pg_world (click_enrich b hst reply (click_clear p)))
    = requests (pg_world p) ∧
  alerts (pg_world (click_enrich b hst reply (click_clear p)))
    = alerts (pg_world p) ++ ["Please paste at least one CVE (e.g., CVE-2021-44228)."] ∧
  records_of (objects (pg_world (click_enrich b hst reply (click_clear p))))
    (rows (pg_world (click_enrich b hst reply (click_clear p)))) = Some [] ∧
  pg_text (click_enrich b hst reply (click_clear p)) = "".
Proof.
intros Hloading. destruct p as [w t o]. cbn [pg_world] in Hloading.
unfold click_enrich, click_clear.
cbv [on_heap setRows mbind mret M_bind M_ret alloc].
cbn [pg_world pg_text pg_owner objects rows loading alerts console requests
     file_input fst snd].
rewrite Hloading. cbn [pg_world pg_text pg_owner].
assert (records_of (objects w ++ [Array []]) (VRef (length (objects w))) = Some [])
  as Hempty.
{ unfold records_of, array_at. rewrite lookup_app_r by lia.
  by rewrite Nat.sub_diag. }
destruct b; run_handler; by cbn.
Qed.

Lemma clear_then_enrich_is_blocked_witness :
  requests (pg_world (click_enrich LaterBuild demo_host (Throw (Error "unused"))
                        (click_clear initial_page)))
    = requests (pg_world initial_page) ∧
  alerts (pg_world (click_enrich LaterBuild demo_host (Throw (Error "unused"))
                      (click_clear initial_page)))
    = alerts (pg_world initial_page)
      ++ ["Please paste at least one CVE (e.g., CVE-2021-44228)."] ∧
  records_of
    (objects (pg_world (click_enrich LaterBuild demo_host (Throw (Error "unused"))
                          (click_clear initial_page))))
    (rows (pg_world (click_enrich LaterBuild demo_host (Throw (Error "unused"))
                       (click_clear initial_page)))) = Some [] ∧
  pg_text (click_enrich LaterBuild demo_host (Throw (Error "unused"))
             (click_clear initial_page)) = "".
Proof.
apply (clear_then_enrich_is_blocked LaterBuild demo_host (Throw (Error "unused"))
         initial_page).
reflexivity.
Defined.


End handlers_more.

(* ===================================================================== *)
(** * The summary bar and the priority tag *)
(* ===================================================================== *)

Section scores.

Lemma Prim2SF_nan (n : float) : is_nan n = true → Prim2SF n = S754_nan.
Proof. intros Hn. unfold Prim2SF. by rewrite Hn. Qed.

Lemma Prim2SF_not_nan (n : float) : is_nan n = false → Prim2SF n ≠ S754_nan.
Proof.
intros Hn. unfold Prim2SF. rewrite Hn.
destruct (is_zero n); [discriminate|]. destruct (is_infinity n); [discriminate|].
destruct (Z.frexp n) as [r e]. destruct (shr_fexp _ _ _ _ _) as [shr e'].
by destruct (shr_m shr).
Qed.

Lemma SFcompare_antisym (x y : spec_float) :
  SFcompare y x = CompOpp <$> SFcompare x y.
Proof.
destruct x as [[]|[]| |[] mx ex], y as [[]|[]| |[] my ey]; simpl; try done.
- rewrite (Z.compare_antisym ey ex). destruct (ey ?= ex)%Z; simpl; try done.
  rewrite (Pos.compare_cont_antisym mx my Eq). simpl.
  by destruct (Pos.compare_cont _ _ _).
- rewrite (Z.compare_antisym ey ex). destruct (ey ?= ex)%Z; simpl; try done.
  by rewrite (Pos.compare_cont_antisym mx my Eq).
Qed.

(** On numbers, [n < c] is the negation of [n >= c]. *)
Lemma ltb_negb_leb (c n : float) :
  is_nan n = false → is_nan c = false → (n <? c)%float = negb (c <=? n)%float.
Proof.
intros Hn Hc. rewrite ltb_spec, leb_spec. unfold SFltb, SFleb.
rewrite (SFcompare_antisym (Prim2SF n) (Prim2SF c)).
pose proof (Prim2SF_not_nan n Hn). pose proof (Prim2SF_not_nan c Hc).
destruct (Prim2SF n) as [[]|[]| |[] mx ex], (Prim2SF c) as [[]|[]| |[] my ey];
  simpl; try done.
all: destruct (ex ?= ey)%Z; simpl; try done; by destruct (Pos.compare_cont _ _ _).
Qed.

(** Every comparison with [NaN] is false. *)
Lemma nan_compares_false (c n : float) :
  is_nan n = true → (c <=? n)%float = false ∧ (n <? c)%float = false.
Proof.
intros Hn. rewrite ltb_spec, leb_spec. unfold SFltb, SFleb.
rewrite (Prim2SF_nan n Hn). simpl. by destruct (Prim2SF c).
Qed.

Lemma SFleb_finite_mono (m1 m2 : positive) (e : Z) (x : spec_float) :
  (m1 <= m2)%positive →
  SFleb (S754_finite false m2 e) x = true → SFleb (S754_finite false m1 e) x = true.
Proof.
intros Hm. unfold SFleb.
destruct x as [[]|[]| |[] m' e']; try done.
cbn [SFcompare].
change (Pos.compare_cont Eq ?a ?b) with (a ?= b)%positive.
destruct (Z.compare_spec e e'); try done.
destruct (Pos.compare_spec m2 m'); destruct (Pos.compare_spec m1 m'); try done; lia.
Qed.

#[local] Set Warnings "-inexact-float".

Lemma ge_08_ge_05 (n : float) :
  (0.8 <=? n)%float = true → (0.5 <=? n)%float = true.
Proof.
rewrite !leb_spec.
replace (Prim2SF 0.8) with (S754_finite false 7205759403792794 (-53))
  by (vm_compute; reflexivity).
replace (Prim2SF 0.5) with (S754_finite false 4503599627370496 (-53))
  by (vm_compute; reflexivity).
apply SFleb_finite_mono. lia.
Qed.

(** The three tests of the summary bar on one number: exactly one holds,
    unless the number is [NaN], when none does. *)
Lemma one_class_per_score (n : float) :
  Nat.b2n (0.8 <=? n)%float
  + Nat.b2n ((0.5 <=? n)%float && (n <? 0.8)%float)
  + Nat.b2n (n <? 0.5)%float
  + Nat.b2n (is_nan n) = 1.
Proof.
destruct (is_nan n) eqn:Hn.
- destruct (nan_compares_false 0.8 n Hn) as [-> ->].
  by destruct (nan_compares_false 0.5 n Hn) as [-> ->].
- rewrite (ltb_negb_leb 0.8 n Hn) by reflexivity.
  rewrite (ltb_negb_leb 0.5 n Hn) by reflexivity.
  pose proof (ge_08_ge_05 n) as Hmono.
  destruct (0.8 <=? n)%float; [by rewrite Hmono|].
  by destruct (0.5 <=? n)%float.
Qed.

Lemma filter_length_cons (test : gmap string value → option bool)
    (r : gmap string value) (recs : list (gmap string value)) :
  filter_length test (r :: recs)
  = b ← test r; n ← filter_length test recs; Some (Nat.b2n b + n).
Proof.
unfold filter_length. cbn [mapM]. destruct (test r) as [b|]; [|done].
cbn [mbind option_bind]. destruct (mapM test recs) as [flags|]; [|done].
cbn [mbind option_bind mret option_ret]. rewrite filter_cons.
by destruct b; case_decide.
Qed.

(** X20.  The summary bar sorts the rows with a numeric score into high,
    medium and low without overlap; only the rows whose score is [NaN] or
    missing are left out of all three, so the three counts add up to the
    total exactly when every row has a number as its score. *)
Theorem summary_counts_partition (recs : list (gmap string value)) :
  Forall (λ r, is_Some (ToNumber (field r "Priority_Score"))) recs →
  ∃ high medium low,
    totalHigh recs = Some high ∧ totalMedium recs = Some medium ∧
    totalLow recs = Some low ∧
    high + medium + low + length (filter (λ r, Is_true (score_is_nan r)) recs)
    = length recs.
Proof.
unfold totalHigh, totalMedium, totalLow.
induction 1 as [|r recs [n Hn] _ (high & medium & low & Hh & Hm & Hl & IH)].
- by exists 0, 0, 0.
- rewrite !filter_length_cons, Hh, Hm, Hl, Hn. cbn [mbind option_bind].
  do 3 eexists. split_and!; try done.
  assert (score_is_nan r = is_nan n) as Hs
    by (unfold score_is_nan; by rewrite Hn).
  rewrite filter_cons. pose proof (one_class_per_score n) as Hone.
  case_decide as Hd; rewrite Hs in Hd; destruct (is_nan n);
    cbn [length Nat.b2n Is_true] in *; try done; lia.
Qed.

Lemma summary_counts_partition_witness :
  ∃ high medium low,
    totalHigh [{["Priority_Score" := VNum 0.9%float]}; ∅] = Some high ∧
    totalMedium [{["Priority_Score" := VNum 0.9%float]}; ∅] = Some medium ∧
    totalLow [{["Priority_Score" := VNum 0.9%float]}; ∅] = Some low ∧
    high + medium + low
    + length (filter (λ r, Is_true (score_is_nan r))
                [{["Priority_Score" := VNum 0.9%float]}; ∅])
    = length [{["Priority_Score" := VNum 0.9%float]}; (∅ : gmap string value)].
Proof.
apply (summary_counts_partition [{["Priority_Score" := VNum 0.9%float]}; ∅]).
repeat constructor; by eexists.
Defined.



#[local] Set Warnings "+inexact-float".

End scores.
